(** * The crawl control loop of [scraper/app/crawler.py]

    A shallow embedding of [WebsiteCrawler] (constructor, [is_allowed],
    [is_same_domain], [normalize_url], [should_crawl], [crawl]) and of the
    caller in [scraper/app/main.py], followed by the properties of the
    crawl: page budget, deduplication, error handling, normalisation,
    scope filter, dispatch and termination.

    Python values are modelled as follows.
    - [str] is [string]; characters are the 8-bit characters of [ascii].
      [str.lower] is modelled on the letters A-Z, which is all that the
      comparison with the (ASCII) extension list can observe.
    - [int] is [Z].
    - [set] of [str] is [gset string]; [deque] and [list] are [list].
    - A call that may raise returns [option]: [None] is the raised
      exception.  Mutations made before an exception is raised persist, so
      the body of a [try] returns the state it reached together with the
      flag that says whether it completed.
    - [print] is a call that may raise as well.  [WebsiteCrawler] below
      is the crawl as long as every [print] returns; the module [Console]
      adds the [print] calls of [crawl] and the runs in which one raises.

    The standard library functions that the crawler calls
    ([urllib.parse.urlparse], [urllib.parse.urljoin],
    [urllib.robotparser.RobotFileParser]) are modelled after CPython 3.11. *)

From Stdlib Require Import ZArith String Ascii List Lia Bool.
From stdpp Require Import base gmap strings.
Import ListNotations.

Local Open Scope string_scope.
Local Open Scope list_scope.
Local Open Scope Z_scope.

(** ** Python string methods *)

Module PyStr.

(** [s.startswith(p)] *)
Fixpoint startswith (s p : string) {struct p} : bool :=
  match p, s with
  | EmptyString, _ => true
  | String _ _, EmptyString => false
  | String c p', String d s' => Ascii.eqb c d && startswith s' p'
  end.

(** [s.startswith((p1, p2, ...))] *)
Definition startswith_any (s : string) (ps : list string) : bool :=
  existsb (startswith s) ps.

(** [s.endswith(suf)]: some suffix of [s] is [suf]. *)
Fixpoint endswith (s suf : string) {struct s} : bool :=
  String.eqb s suf
  || match s with
     | EmptyString => false
     | String _ s' => endswith s' suf
     end.

(** [t in s] for strings. *)
Fixpoint contains (s t : string) {struct s} : bool :=
  startswith s t
  || match s with
     | EmptyString => false
     | String _ s' => contains s' t
     end.

(** [c in s] for a character [c]. *)
Fixpoint has_char (c : ascii) (s : string) : bool :=
  match s with
  | EmptyString => false
  | String d s' => Ascii.eqb d c || has_char c s'
  end.

(** [s.partition(c)]: the text before the first [c], and the text after
    it when there is one. *)
Fixpoint partition (c : ascii) (s : string) : string * option string :=
  match s with
  | EmptyString => (EmptyString, None)
  | String d s' =>
      if Ascii.eqb d c then (EmptyString, Some s')
      else let '(b, a) := partition c s' in (String d b, a)
  end.

(** [s.split(c)[0]] *)
Definition before (c : ascii) (s : string) : string := fst (partition c s).

(** [s.split(c)] *)
Fixpoint split (c : ascii) (s : string) : list string :=
  match s with
  | EmptyString => [EmptyString]
  | String d s' =>
      if Ascii.eqb d c then EmptyString :: split c s'
      else match split c s' with
           | [] => [String d EmptyString]
           | h :: t => String d h :: t
           end
  end.

(** [sep.join(l)] *)
Fixpoint join (sep : string) (l : list string) : string :=
  match l with
  | [] => EmptyString
  | [x] => x
  | x :: l' => x +:+ sep +:+ join sep l'
  end.

(** [s[:-1]] *)
Fixpoint drop_last (s : string) : string :=
  match s with
  | EmptyString => EmptyString
  | String c s' =>
      match s' with
      | EmptyString => EmptyString
      | String _ _ => String c (drop_last s')
      end
  end.

Definition in_range (lo hi : nat) (c : ascii) : bool :=
  (lo <=? nat_of_ascii c)%nat && (nat_of_ascii c <=? hi)%nat.

Definition is_upper (c : ascii) : bool := in_range 65 90 c.
Definition is_lower (c : ascii) : bool := in_range 97 122 c.
Definition is_digit (c : ascii) : bool := in_range 48 57 c.
Definition is_ascii_char (c : ascii) : bool := (nat_of_ascii c <=? 127)%nat.

Definition lower_char (c : ascii) : ascii :=
  if is_upper c then ascii_of_nat (nat_of_ascii c + 32) else c.

(** [s.lower()] *)
Fixpoint lower (s : string) : string :=
  match s with
  | EmptyString => EmptyString
  | String c s' => String (lower_char c) (lower s')
  end.

Fixpoint all_chars (p : ascii -> bool) (s : string) : bool :=
  match s with
  | EmptyString => true
  | String c s' => p c && all_chars p s'
  end.

Fixpoint filter_chars (p : ascii -> bool) (s : string) : string :=
  match s with
  | EmptyString => EmptyString
  | String c s' => if p c then String c (filter_chars p s') else filter_chars p s'
  end.

(** Truth value of a string: [bool(s)]. *)
Definition nonempty (s : string) : bool :=
  match s with EmptyString => false | String _ _ => true end.

(** [x in l] for a list of strings. *)
Definition mem (x : string) (l : list string) : bool := existsb (String.eqb x) l.

End PyStr.

(** ** [urllib.parse] *)

(** The two validations of [urlsplit] that depend on tables outside the
    string itself: [_check_bracketed_netloc] (the address between brackets
    is parsed by [ipaddress]) and the NFKC test of [_checknetloc] (consulted
    for a netloc that is not ASCII only).  [true] means the check passes,
    [false] that it raises [ValueError]. *)
Class NetlocChecks := {
  check_bracketed_netloc : string -> bool;
  checknetloc_nfkc : string -> bool
}.

Module UrlParse.
Import PyStr.

Definition uses_relative : list string :=
  [""; "ftp"; "http"; "gopher"; "nntp"; "imap"; "wais"; "file"; "https";
   "shttp"; "mms"; "prospero"; "rtsp"; "rtspu"; "sftp"; "svn"; "svn+ssh";
   "ws"; "wss"].

Definition uses_netloc : list string :=
  [""; "ftp"; "http"; "gopher"; "nntp"; "telnet"; "imap"; "wais"; "file";
   "mms"; "https"; "shttp"; "snews"; "prospero"; "rtsp"; "rtspu"; "rsync";
   "svn"; "svn+ssh"; "sftp"; "nfs"; "git"; "git+ssh"; "ws"; "wss"].

Definition uses_params : list string :=
  [""; "ftp"; "hdl"; "prospero"; "http"; "imap"; "https"; "shttp"; "rtsp";
   "rtspu"; "sip"; "sips"; "mms"; "sftp"; "tel"].

(** [scheme_chars] *)
Definition is_scheme_char (c : ascii) : bool :=
  is_lower c || is_upper c || is_digit c
  || Ascii.eqb c "+" || Ascii.eqb c "-" || Ascii.eqb c ".".

(** [_WHATWG_C0_CONTROL_OR_SPACE]: the characters 0x00 .. 0x20. *)
Definition is_c0_or_space (c : ascii) : bool := (nat_of_ascii c <=? 32)%nat.

Fixpoint lstrip_c0 (s : string) : string :=
  match s with
  | EmptyString => EmptyString
  | String c s' => if is_c0_or_space c then lstrip_c0 s' else s
  end.

(** [_UNSAFE_URL_BYTES_TO_REMOVE]: tab, carriage return, newline. *)
Definition is_unsafe (c : ascii) : bool :=
  (nat_of_ascii c =? 9)%nat || (nat_of_ascii c =? 13)%nat
  || (nat_of_ascii c =? 10)%nat.

Definition remove_unsafe (s : string) : string :=
  filter_chars (fun c => negb (is_unsafe c)) s.

Record SplitResult := mkSplit {
  scheme : string;
  netloc : string;
  path : string;
  query : string;
  fragment : string
}.

(** The scheme of [url], when [url] has one, and what follows its colon. *)
Definition split_scheme (url : string) : option (string * string) :=
  match partition ":" url with
  | (String c0 _ as pre, Some rest) =>
      if is_ascii_char c0 && (is_lower c0 || is_upper c0)
         && all_chars is_scheme_char pre
      then Some (lower pre, rest)
      else None
  | _ => None
  end.

Definition is_netloc_delim (c : ascii) : bool :=
  Ascii.eqb c "/" || Ascii.eqb c "?" || Ascii.eqb c "#".

(** [_splitnetloc(url, 0)]: the text up to the first of [/ ? #], and the
    rest from that delimiter on. *)
Fixpoint splitnetloc (s : string) : string * string :=
  match s with
  | EmptyString => (EmptyString, EmptyString)
  | String c s' =>
      if is_netloc_delim c then (EmptyString, s)
      else let '(n, r) := splitnetloc s' in (String c n, r)
  end.

(** The checks of [urlsplit] on a netloc; [false] is [ValueError]. *)
Definition netloc_ok `{NetlocChecks} (n : string) : bool :=
  let lb := has_char "[" n in
  let rb := has_char "]" n in
  if (lb && negb rb) || (rb && negb lb) then false
  else (if lb && rb then check_bracketed_netloc n else true)
       && (if negb (nonempty n) || all_chars is_ascii_char n then true
           else checknetloc_nfkc n).

(** The first half of [urlsplit(url, scheme)]: the scheme, the netloc and
    what follows the netloc.  The default [scheme] is only ever [''] or a
    scheme that [urlsplit] returned, on which the stripping of control
    characters is the identity. *)
Definition split_authority (url0 scheme0 : string) : string * string * string :=
  let url := remove_unsafe (lstrip_c0 url0) in
  let scheme0 := remove_unsafe scheme0 in
  let '(sch, url) :=
    match split_scheme url with
    | Some (s, rest) => (s, rest)
    | None => (scheme0, url)
    end in
  let '(nl, url) :=
    match url with
    | String "/" (String "/" rest) => splitnetloc rest
    | _ => (EmptyString, url)
    end in
  (sch, nl, url).

(** The second half, with [allow_fragments=True]: path, query, fragment. *)
Definition split_tail (url : string) : string * string * string :=
  let '(url, frag) :=
    match partition "#" url with
    | (b, Some a) => (b, a)
    | (_, None) => (url, EmptyString)
    end in
  let '(url, qry) :=
    match partition "?" url with
    | (b, Some a) => (b, a)
    | (_, None) => (url, EmptyString)
    end in
  (url, qry, frag).

(** [urlsplit(url, scheme)]; [None] is [ValueError]. *)
Definition urlsplit `{NetlocChecks} (url0 scheme0 : string) : option SplitResult :=
  let '(sch, nl, rest) := split_authority url0 scheme0 in
  if netloc_ok nl then
    let '(p, qry, frag) := split_tail rest in
    Some (mkSplit sch nl p qry frag)
  else None.

Record ParseResult := mkParse {
  p_scheme : string;
  p_netloc : string;
  p_path : string;
  p_params : string;
  p_query : string;
  p_fragment : string
}.

(** The last element of [s.split('/')] and the text before it. *)
Fixpoint split_last_segment (s : string) : string * string :=
  match s with
  | EmptyString => (EmptyString, EmptyString)
  | String c s' =>
      let '(pre, last) := split_last_segment s' in
      if has_char "/" s' then (String c pre, last)
      else if Ascii.eqb c "/" then (String c EmptyString, s')
      else (EmptyString, s)
  end.

(** [_splitparams(url)], called when [';' in url]. *)
Definition splitparams (url : string) : string * string :=
  let '(pre, last) := split_last_segment url in
  match partition ";" last with
  | (b, Some a) => (pre +:+ b, a)
  | (_, None) => (url, EmptyString)
  end.

(** [urlparse(url, scheme)] *)
Definition urlparse `{NetlocChecks} (url scheme0 : string) : option ParseResult :=
  match urlsplit url scheme0 with
  | None => None
  | Some r =>
      let '(p, params) :=
        if mem (scheme r) uses_params && has_char ";" (path r)
        then splitparams (path r)
        else (path r, EmptyString) in
      Some (mkParse (scheme r) (netloc r) p params (query r) (fragment r))
  end.

(** [urlunsplit((scheme, netloc, url, query, fragment))] *)
Definition urlunsplit (sch nl url qry frag : string) : string :=
  let url :=
    if nonempty nl
       || (nonempty sch && mem sch uses_netloc && negb (startswith url "//"))
    then "//" +:+ nl
         +:+ (if nonempty url && negb (startswith url "/") then "/" +:+ url
              else url)
    else url in
  let url := if nonempty sch then sch +:+ ":" +:+ url else url in
  let url := if nonempty qry then url +:+ "?" +:+ qry else url in
  if nonempty frag then url +:+ "#" +:+ frag else url.

(** [urlunparse((scheme, netloc, url, params, query, fragment))] *)
Definition urlunparse (sch nl url params qry frag : string) : string :=
  urlunsplit sch nl
    (if nonempty params then url +:+ ";" +:+ params else url) qry frag.

(** [segments[1:-1] = filter(None, segments[1:-1])] *)
Definition filter_middle (segments : list string) : list string :=
  match segments with
  | [] => []
  | first :: rest =>
      match rev rest with
      | [] => [first]
      | last :: mid_rev => first :: filter nonempty (rev mid_rev) ++ [last]
      end
  end.

(** The loop of [urljoin] over the segments. *)
Fixpoint resolve_segments (segments resolved : list string) : list string :=
  match segments with
  | [] => resolved
  | seg :: segments' =>
      if String.eqb seg ".." then resolve_segments segments' (removelast resolved)
      else if String.eqb seg "." then resolve_segments segments' resolved
      else resolve_segments segments' (resolved ++ [seg])
  end.

(** [urljoin(base, url)]; [None] when one of the two [urlparse] calls
    raises [ValueError]. *)
Definition urljoin `{NetlocChecks} (base url : string) : option string :=
  if negb (nonempty base) then Some url
  else if negb (nonempty url) then Some base
  else
    match urlparse base EmptyString with
    | None => None
    | Some b =>
        match urlparse url (p_scheme b) with
        | None => None
        | Some u =>
            if negb (String.eqb (p_scheme u) (p_scheme b))
               || negb (mem (p_scheme u) uses_relative)
            then Some url
            else if mem (p_scheme u) uses_netloc && nonempty (p_netloc u)
            then Some (urlunparse (p_scheme u) (p_netloc u) (p_path u)
                         (p_params u) (p_query u) (p_fragment u))
            else
              let nl := if mem (p_scheme u) uses_netloc then p_netloc b
                        else p_netloc u in
              if negb (nonempty (p_path u)) && negb (nonempty (p_params u))
              then Some (urlunparse (p_scheme u) nl (p_path b) (p_params b)
                           (if nonempty (p_query u) then p_query u
                            else p_query b)
                           (p_fragment u))
              else
                let base_parts :=
                  let parts := split "/" (p_path b) in
                  if nonempty (List.last parts EmptyString) then removelast parts
                  else parts in
                let segments :=
                  if startswith (p_path u) "/" then split "/" (p_path u)
                  else filter_middle (base_parts ++ split "/" (p_path u)) in
                let resolved := resolve_segments segments [] in
                let resolved :=
                  if mem (List.last segments EmptyString) ["."; ".."]
                  then (resolved ++ [EmptyString])%list else resolved in
                let joined := join "/" resolved in
                Some (urlunparse (p_scheme u) nl
                        (if nonempty joined then joined else "/")
                        (p_params u) (p_query u) (p_fragment u))
        end
    end.

End UrlParse.

(** ** [urllib.robotparser.RobotFileParser] *)

Module RobotParser.

(** What [read()] meets on the network.  *)
Inductive ReadOutcome :=
| ReadParsed (rules : string -> option bool)
    (** the file was fetched and [parse] ran: [rules url] is what
        [can_fetch] does with [url] from then on, for the agent ["*"]:
        it raises ([None]) when [urlparse(unquote(url))] does, and
        otherwise returns the answer of the rule search *)
| ReadHTTPError (code : Z)
    (** [urlopen] raised [HTTPError], which [read] handles itself *)
| ReadRaised.
    (** [urlopen] raised another error (no route, no name, time out) or
        the body did not decode: [read] raises, before [parse] is called *)

(** The fields of the parser that [can_fetch] reads.  [last_checked] is
    the truth value of the time stamp: [false] until [modified()] ran.
    [rules] stands for the entries, as in [ReadParsed]. *)
Record RobotFileParser := mkParser {
  disallow_all : bool;
  allow_all : bool;
  last_checked : bool;
  rules : string -> option bool
}.

(** [RobotFileParser()].  Its [rules] are never consulted: [can_fetch]
    returns before them while [last_checked] is unset, and [read] replaces
    them when it sets it. *)
Definition new : RobotFileParser :=
  mkParser false false false (fun _ => Some true).

(** [read()]: [None] when it raises, leaving the parser as it was. *)
Definition read (o : ReadOutcome) (p : RobotFileParser) : option RobotFileParser :=
  match o with
  | ReadRaised => None
  | ReadHTTPError code =>
      if (code =? 401) || (code =? 403)
      then Some (mkParser true (allow_all p) (last_checked p) (rules p))
      else if (400 <=? code) && (code <? 500)
      then Some (mkParser (disallow_all p) true (last_checked p) (rules p))
      else Some p
  | ReadParsed r => Some (mkParser (disallow_all p) (allow_all p) true r)
  end.

(** [can_fetch("*", url)]; [None] when it raises, which only the part
    after the three early returns can do. *)
Definition can_fetch (p : RobotFileParser) (url : string) : option bool :=
  if disallow_all p then Some false
  else if allow_all p then Some true
  else if negb (last_checked p) then Some false
  else rules p url.

End RobotParser.

(** ** The scraper's results and the crawler's state *)

Record Link := mkLink { link_text : string; link_url : string }.

(** The dictionary built by [extract_structured_data]; [sd_links] is [None]
    when the key ["links"] is absent.  The other keys are not read by the
    crawler. *)
Record StructuredData := mkSD { sd_links : option (list Link) }.

(** The dictionary returned by [scrape_static] and [scrape_dynamic]. *)
Record ScrapeResult := mkScrape {
  text : string;
  structured_data : option StructuredData
}.

(** An element of [results]: [{"url": ..., "content": ...}]. *)
Record PageRecord := mkPage { url : string; content : ScrapeResult }.

Inductive FetchKind := Static | Dynamic.

(** The fields of [WebsiteCrawler].  [fetch_log] is a ghost field: the
    calls made to the scraper, oldest first. *)
Record Crawler := mkCrawler {
  base_url : string;
  base_domain : string;
  max_pages : Z;
  respect_robots : bool;
  visited_urls : gset string;
  queue : list string;
  results : list PageRecord;
  robot_parser : RobotParser.RobotFileParser;
  fetch_log : list (FetchKind * string)
}.

Definition set_queue (q : list string) (c : Crawler) : Crawler :=
  mkCrawler (base_url c) (base_domain c) (max_pages c) (respect_robots c)
    (visited_urls c) q (results c) (robot_parser c) (fetch_log c).

Definition set_visited_urls (v : gset string) (c : Crawler) : Crawler :=
  mkCrawler (base_url c) (base_domain c) (max_pages c) (respect_robots c)
    v (queue c) (results c) (robot_parser c) (fetch_log c).

Definition set_results (r : list PageRecord) (c : Crawler) : Crawler :=
  mkCrawler (base_url c) (base_domain c) (max_pages c) (respect_robots c)
    (visited_urls c) (queue c) r (robot_parser c) (fetch_log c).

Definition set_fetch_log (l : list (FetchKind * string)) (c : Crawler) : Crawler :=
  mkCrawler (base_url c) (base_domain c) (max_pages c) (respect_robots c)
    (visited_urls c) (queue c) (results c) (robot_parser c) l.

(** The fields that the loop never writes. *)
Definition same_config (c c' : Crawler) : Prop :=
  base_url c' = base_url c /\ base_domain c' = base_domain c
  /\ max_pages c' = max_pages c /\ respect_robots c' = respect_robots c
  /\ robot_parser c' = robot_parser c.

(** What a run of the loop may do to a crawler: it keeps the
    configuration, extends [visited_urls] and the log, and appends records
    with pairwise distinct addresses, each new to [visited_urls] before
    and a member of it after. *)
Definition grows (c c' : Crawler) : Prop :=
  same_config c c'
  /\ visited_urls c ⊆ visited_urls c'
  /\ (exists calls, fetch_log c' = (fetch_log c ++ calls))
  /\ (exists new,
        results c' = (results c ++ new)
        /\ List.NoDup (map url new)
        /\ forall u, In u (map url new) ->
             (u ∉ visited_urls c) /\ u ∈ visited_urls c').

(** The response of the [/scrape] endpoint of [main.py]. *)
Inductive Response :=
| Success (data : list PageRecord)
| ServerError.

(** ** [WebsiteCrawler] *)

Section WebsiteCrawler.
Import PyStr.

Context `{NetlocChecks}.

(** The two entry points of [Scraper]; [None] is a raised exception, of
    the class [Exception] as the scraper and its libraries raise them.
    (An interrupt of the process is not an event of this model.) *)
Variable scrape_static : string -> option ScrapeResult.
Variable scrape_dynamic : string -> option ScrapeResult.

(** What the network answers to the request for [robots.txt]. *)
Variable robots : RobotParser.ReadOutcome.

(** The [try] block of [__init__]: [set_url] parses the address, [read]
    fetches it; an exception of either leaves the parser as it is. *)
Definition read_robots (robots_url : string) : RobotParser.RobotFileParser :=
  match UrlParse.urlparse robots_url EmptyString with
  | None => RobotParser.new
  | Some _ =>
      match RobotParser.read robots RobotParser.new with
      | None => RobotParser.new
      | Some p => p
      end
  end.

(** [WebsiteCrawler(base_url, max_pages, respect_robots)]; [None] when
    the constructor raises. *)
Definition init (base_url : string) (max_pages : Z) (respect_robots : bool)
  : option Crawler :=
  match UrlParse.urlparse base_url EmptyString with
  | None => None
  | Some p =>
      let mk rp :=
        mkCrawler base_url (UrlParse.p_netloc p) max_pages respect_robots
          ∅ [base_url] [] rp [] in
      if respect_robots then
        match UrlParse.urljoin base_url "/robots.txt" with
        | None => None
        | Some robots_url => Some (mk (read_robots robots_url))
        end
      else Some (mk RobotParser.new)
  end.

Definition is_allowed (c : Crawler) (url : string) : option bool :=
  if negb (respect_robots c) then Some true
  else RobotParser.can_fetch (robot_parser c) url.

Definition is_same_domain (c : Crawler) (url : string) : option bool :=
  match UrlParse.urlparse url EmptyString with
  | None => None
  | Some p => Some (String.eqb (UrlParse.p_netloc p) (base_domain c))
  end.

Definition http_prefixes : list string := ["http://"; "https://"].

Definition normalize_url (url source_url : string) : option string :=
  let resolved :=
    if negb (startswith_any url http_prefixes)
    then UrlParse.urljoin source_url url
    else Some url in
  match resolved with
  | None => None
  | Some url =>
      let url := before "#" url in
      Some (if endswith url "/" then drop_last url else url)
  end.

Definition skip_extensions : list string :=
  [".pdf"; ".jpg"; ".jpeg"; ".png"; ".gif"; ".css"; ".js";
   ".zip"; ".tar"; ".gz"; ".mp3"; ".mp4"; ".avi"; ".mov"].

Definition has_skip_extension (url : string) : bool :=
  existsb (endswith (lower url)) skip_extensions.

Definition should_crawl (c : Crawler) (url : string) : option bool :=
  if negb (startswith_any url http_prefixes) then Some false
  else if bool_decide (url ∈ visited_urls c) then Some false
  else
    match is_same_domain c url with
    | None => None
    | Some false => Some false
    | Some true =>
        match is_allowed c url with
        | None => None
        | Some false => Some false
        | Some true => Some (negb (has_skip_extension url))
        end
    end.

Definition dynamic_tokens : list string :=
  ["#"; "vue"; "react"; "angular"; "spa"; "dashboard"].

Definition is_likely_dynamic (current_url : string) : bool :=
  existsb (contains current_url) dynamic_tokens.

Definition fetch_kind (current_url : string) : FetchKind :=
  if is_likely_dynamic current_url then Dynamic else Static.

Definition scrape (k : FetchKind) (current_url : string) : option ScrapeResult :=
  match k with
  | Dynamic => scrape_dynamic current_url
  | Static => scrape_static current_url
  end.

(** The list [links] built from a result. *)
Definition links_of (result : ScrapeResult) : list string :=
  match structured_data result with
  | None => []
  | Some sd =>
      match sd_links sd with
      | None => []
      | Some l => map link_url l
      end
  end.

(** The [for link in links] loop.  The flag is [false] when
    [normalize_url] or [should_crawl] raised: the links appended before
    stay in the queue, the remaining ones are not looked at. *)
Fixpoint process_links (c : Crawler) (current_url : string)
    (links : list string) : Crawler * bool :=
  match links with
  | [] => (c, true)
  | link :: links' =>
      match normalize_url link current_url with
      | None => (c, false)
      | Some normalized_link =>
          match should_crawl c normalized_link with
          | None => (c, false)
          | Some true =>
              process_links (set_queue (queue c ++ [normalized_link]) c)
                current_url links'
          | Some false => process_links c current_url links'
          end
      end
  end.

(** The body of the [try] of [crawl] up to [page_count += 1].  The
    [except] clause only prints, so the state reached and the counter
    are what the iteration leaves.  (The delay that follows the
    increment changes neither.)  The [print] is taken to return;
    [Console.try_body] below has the case where it raises. *)
Definition try_body (c : Crawler) (current_url : string) (page_count : Z)
  : Crawler * Z :=
  let k := fetch_kind current_url in
  let c := set_fetch_log (fetch_log c ++ [(k, current_url)]) c in
  match scrape k current_url with
  | None => (c, page_count)
  | Some result =>
      let c := set_results (results c ++ [mkPage current_url result]) c in
      match process_links c current_url (links_of result) with
      | (c, true) => (c, page_count + 1)
      | (c, false) => (c, page_count)
      end
  end.

(** The state of the loop: the crawler and the local [page_count]. *)
Definition LoopState : Type := Crawler * Z.

(** [self.queue and page_count < self.max_pages] *)
Definition loop_guard (s : LoopState) : bool :=
  match queue (fst s) with
  | [] => false
  | _ :: _ => snd s <? max_pages (fst s)
  end.

(** One iteration of the [while] loop, its [print] taken to return;
    [Console.loop_body] below has the case where it raises. *)
Definition loop_body (s : LoopState) : LoopState :=
  let '(c, page_count) := s in
  match queue c with
  | [] => s
  | current_url :: rest =>
      let c := set_queue rest c in
      if bool_decide (current_url ∈ visited_urls c) then (c, page_count)
      else
        let c := set_visited_urls ({[current_url]} ∪ visited_urls c) c in
        try_body c current_url page_count
  end.

(** The [while] loop; [None] when [fuel] iterations did not end it. *)
Fixpoint crawl_loop (fuel : nat) (s : LoopState) : option LoopState :=
  if loop_guard s then
    match fuel with
    | O => None
    | S fuel' => crawl_loop fuel' (loop_body s)
    end
  else Some s.

(** [crawl()]: the crawler when the loop has ended; its [results] are
    what [crawl] returns.  By [console_crawl_returned] below, whenever the
    crawl with its [print] calls returns, it returns this crawler. *)
Definition crawl (fuel : nat) (c : Crawler) : option Crawler :=
  option_map fst (crawl_loop fuel (c, 0)).

End WebsiteCrawler.

(** No link of any page makes [normalize_url] or [should_crawl] raise,
    whatever the state of a crawler that has the configuration of [c0]
    (its domain, its limit, its robots policy). *)
Definition links_never_raise `{NetlocChecks}
    (scrape_static scrape_dynamic : string -> option ScrapeResult)
    (c0 : Crawler) : Prop :=
  forall k u r c,
    same_config c0 c ->
    scrape scrape_static scrape_dynamic k u = Some r ->
    snd (process_links c u (links_of r)) = true.

(** ** Scenarios

    Concrete sites, given as tables from address to the links of the page;
    an address outside the table cannot be fetched.  Both entry points of
    the scraper see the same site. *)

Module Scenario.

(** No address of the scenarios has brackets on both sides or a
    character outside ASCII, so these checks are never consulted. *)
Definition checks : NetlocChecks :=
  {| check_bracketed_netloc := fun _ => false;
     checknetloc_nfkc := fun _ => false |}.

Definition page (links : list string) : ScrapeResult :=
  mkScrape EmptyString
    (Some (mkSD (Some (map (fun u => mkLink EmptyString u) links)))).

Fixpoint site (table : list (string * list string)) (u : string)
  : option ScrapeResult :=
  match table with
  | [] => None
  | (a, links) :: table' =>
      if String.eqb a u then Some (page links) else site table' u
  end.

Definition run (table : list (string * list string))
    (robots : RobotParser.ReadOutcome) (fuel : nat)
    (seed : string) (max_pages : Z) (respect_robots : bool)
  : option Crawler :=
  match @init checks robots seed max_pages respect_robots with
  | None => None
  | Some c => @crawl checks (site table) (site table) fuel c
  end.

(** The crawler that the constructor builds for a seed on [x.com]. *)
Definition fresh (seed : string) (limit : Z) : Crawler :=
  mkCrawler seed "x.com" limit false ∅ [seed] [] RobotParser.new [].

(** A page whose second link has an unbalanced bracket. *)
Definition bad_link_site : list (string * list string) :=
  [("http://x.com", ["http://x.com/b"; "http://["]);
   ("http://x.com/b", [])].

(** A site on which every page links to a page that does not exist yet,
    and then carries a link with an unbalanced bracket. *)
Definition endless (u : string) : option ScrapeResult :=
  Some (page [u +:+ "a"; "http://["]).

Definition endless_seed : string := "http://x.com/p".

(** [k] times the letter [a]. *)
Fixpoint letters (k : nat) : string :=
  match k with
  | O => EmptyString
  | S k' => String "a" (letters k')
  end.

(** The crawler after [k] pages of [endless]: one address in the queue,
    the earlier ones visited, the counter still at zero. *)
Definition endless_state (k : nat) (c : Crawler) : Prop :=
  queue c = [endless_seed +:+ letters k]
  /\ max_pages c = 1
  /\ base_domain c = "x.com"
  /\ respect_robots c = false
  /\ forall v, v ∈ visited_urls c ->
       exists j, (j < k)%nat /\ v = endless_seed +:+ letters j.

(** Two pages, the first linking to the second. *)
Definition two_pages : list (string * list string) :=
  [("http://x.com", ["http://x.com/b"]);
   ("http://x.com/b", [])].

(** A page that links to itself. *)
Definition self_loop : list (string * list string) :=
  [("http://x.com/a", ["http://x.com/a"])].

(** A site whose root is served with and without the final slash, the
    root page linking to itself. *)
Definition slash_root : list (string * list string) :=
  [("http://x.com/", ["http://x.com/"]);
   ("http://x.com", ["http://x.com/"])].

(** A page that carries the same link twice, to a page linking back. *)
Definition twice_linked : list (string * list string) :=
  [("http://x.com", ["http://x.com/b"; "http://x.com/b"]);
   ("http://x.com/b", ["http://x.com"])].

(** Nothing can be fetched. *)
Definition offline : list (string * list string) := [].

End Scenario.


(** ** Notions used by the invariants of the crawl *)

(** What [should_crawl] has checked of an address it accepted, apart from
    [visited_urls]: it depends on the configuration of the crawler only. *)
Definition in_scope `{NetlocChecks} (c : Crawler) (u : string) : Prop :=
  PyStr.startswith_any u http_prefixes = true
  /\ (exists p, UrlParse.urlparse u EmptyString = Some p
                /\ UrlParse.p_netloc p = base_domain c)
  /\ is_allowed c u = Some true
  /\ has_skip_extension u = false.

(** The address that one link of a page adds to the queue, if any. *)
Definition accepted_link `{NetlocChecks} (c : Crawler)
    (current_url link : string) : list string :=
  match normalize_url link current_url with
  | Some n =>
      match should_crawl c n with
      | Some true => [n]
      | _ => []
      end
  | None => []
  end.

(** An address that was discovered on a page: in scope and free of a
    fragment. *)
Definition discovered `{NetlocChecks} (c : Crawler) (u : string) : Prop :=
  in_scope c u /\ PyStr.has_char "#" u = false.

(** The invariant of the loop: the queue and the log hold the seed and
    discovered addresses only, every call went through the dispatcher, no
    address was handed to the scraper twice, [visited_urls] is the set of
    the addresses handed to the scraper, the records follow the order of
    the calls, and every record holds what the scraper returned. *)
Definition crawl_inv `{NetlocChecks}
    (scrape_static scrape_dynamic : string -> option ScrapeResult)
    (c : Crawler) : Prop :=
  (forall u, In u (queue c) -> u = base_url c \/ discovered c u)
  /\ (forall k u, In (k, u) (fetch_log c) ->
        k = fetch_kind u /\ (u = base_url c \/ discovered c u))
  /\ List.NoDup (map snd (fetch_log c))
  /\ (forall u, u ∈ visited_urls c <-> In u (map snd (fetch_log c)))
  /\ sublist (map url (results c)) (map snd (fetch_log c))
  /\ (forall r, In r (results c) ->
        scrape scrape_static scrape_dynamic (fetch_kind (url r)) (url r)
        = Some (content r)).

(** ** [scraper.py] *)

(** The parts of [Scraper] that are plain computations on strings and
    lists.  What [BeautifulSoup], [requests] and Playwright deliver is
    taken as given: the anchors and images of the document in document
    order, the text of the document, the status of the response. *)

Module Scraper.
Import PyStr.

(** [s[1:]] *)
Definition tail (s : string) : string :=
  match s with
  | EmptyString => EmptyString
  | String _ s' => s'
  end.

(** The conversion that [extract_structured_data] applies to every [href]
    and every [src]: a reference that starts with a slash is appended to
    the address of the page. *)
Definition absolutize (url ref : string) : string :=
  if startswith ref "/" then
    if endswith url "/" then url +:+ tail ref else url +:+ ref
  else ref.

(** An element of [soup.find_all('a', href=True)]: its text, as
    [get_text(strip=True)] gives it, and its [href]. *)
Record Anchor := mkAnchor { anchor_text : string; href : string }.

(** An element of [soup.find_all('img', src=True)]: its [src] and its
    [alt], when it has one. *)
Record Img := mkImg { src : string; alt : option string }.

(** An element of [structured_data["images"]]. *)
Record Image := mkImage { image_src : string; image_alt : string }.

(** The loop that fills [structured_data["links"]]. *)
Definition extract_links (anchors : list Anchor) (url : string) : list Link :=
  map (fun a => mkLink (anchor_text a) (absolutize url (href a))) anchors.

(** The loop that fills [structured_data["images"]]. *)
Definition extract_images (imgs : list Img) (url : string) : list Image :=
  map (fun i => mkImage (absolutize url (src i))
                  (match alt i with Some a => a | None => EmptyString end))
    imgs.

(** [c.isspace()] for the 8-bit characters. *)
Definition is_space (c : ascii) : bool :=
  let n := nat_of_ascii c in
  ((9 <=? n) && (n <=? 13) || (28 <=? n) && (n <=? 32)
   || (n =? 133) || (n =? 160))%nat.

(** The line boundaries of [str.splitlines] among the 8-bit characters. *)
Definition is_linebreak (c : ascii) : bool :=
  let n := nat_of_ascii c in
  ((10 <=? n) && (n <=? 13) || (28 <=? n) && (n <=? 30) || (n =? 133))%nat.

(** Puts a character in front of the first string of a list. *)
Definition push (c : ascii) (l : list string) : list string :=
  match l with
  | [] => [String c EmptyString]
  | h :: t => String c h :: t
  end.

(** The text cut at every line boundary, ["\r\n"] counting once; the list
    ends with what follows the last boundary, empty or not. *)
Fixpoint cut_lines (s : string) : list string :=
  match s with
  | EmptyString => [EmptyString]
  | String c s' =>
      if is_linebreak c then
        match s' with
        | String d s'' =>
            if (nat_of_ascii c =? 13)%nat && (nat_of_ascii d =? 10)%nat
            then EmptyString :: cut_lines s''
            else EmptyString :: cut_lines s'
        | EmptyString => EmptyString :: cut_lines s'
        end
      else push c (cut_lines s')
  end.

(** [s.splitlines()]: no empty line is reported after the last
    boundary. *)
Definition splitlines (s : string) : list string :=
  let l := cut_lines s in
  if nonempty (List.last l EmptyString) then l else removelast l.

Fixpoint lstrip (s : string) : string :=
  match s with
  | EmptyString => EmptyString
  | String c s' => if is_space c then lstrip s' else s
  end.

Fixpoint rstrip (s : string) : string :=
  match s with
  | EmptyString => EmptyString
  | String c s' =>
      match rstrip s' with
      | EmptyString => if is_space c then EmptyString else String c EmptyString
      | r => String c r
      end
  end.

(** [s.strip()] *)
Definition strip (s : string) : string := rstrip (lstrip s).

(** [s.split("  ")]: cut at every pair of spaces, from the left. *)
Fixpoint split_spaces (s : string) : list string :=
  match s with
  | EmptyString => [EmptyString]
  | String c s' =>
      match s' with
      | String d s'' =>
          if Ascii.eqb c " " && Ascii.eqb d " "
          then EmptyString :: split_spaces s''
          else push c (split_spaces s')
      | EmptyString => push c (split_spaces s')
      end
  end.

(** The three lines under [# Clean text], the same in [scrape_static],
    [scrape_dynamic] and [scrape_with_interaction]. *)
Definition clean_text (text : string) : string :=
  let lines := map strip (splitlines text) in
  let chunks := map strip (flat_map split_spaces lines) in
  join " " (filter nonempty chunks).

(** What [requests] and [BeautifulSoup] deliver for an address:
    the status of the response, the text that
    [soup.get_text(separator=' ', strip=True)] returns once the [script]
    and [style] elements are removed, and the anchors of the document. *)
Record Response := mkResponse {
  status_code : Z;
  page_text : string;
  anchors : list Anchor
}.

(** [response.raise_for_status()] raises for the statuses 400 to 599. *)
Definition raises_for_status (status : Z) : bool :=
  (400 <=? status) && (status <? 600).

(** [scrape_static(url)], with [extract_structure=True]; [get] is
    [session.get], [None] being an exception of the transport. *)
Definition scrape_static (get : string -> option Response) (url : string)
  : option ScrapeResult :=
  match get url with
  | None => None
  | Some response =>
      if raises_for_status (status_code response) then None
      else Some (mkScrape (clean_text (page_text response))
                   (Some (mkSD (Some (extract_links (anchors response) url)))))
  end.

(** What Playwright delivers for [page.goto] followed by [page.content()]:
    the text and the anchors of the rendered document. *)
Record Rendered := mkRendered {
  rendered_text : string;
  rendered_anchors : list Anchor
}.

(** [scrape_dynamic(url)], with [extract_structure=True]; [render] stands
    for the browser, [None] being an exception of it.  The status of the
    response is not looked at. *)
Definition scrape_dynamic (render : string -> option Rendered) (url : string)
  : option ScrapeResult :=
  match render url with
  | None => None
  | Some page =>
      Some (mkScrape (clean_text (rendered_text page))
              (Some (mkSD (Some (extract_links (rendered_anchors page) url)))))
  end.

End Scraper.

(** ** The canonical form of [normalize_url] *)

(** [url[:-1]] when [url] ends with a slash, [url] otherwise. *)
Definition drop_slash (s : string) : string :=
  if PyStr.endswith s "/" then PyStr.drop_last s else s.

(** What [normalize_url] does once the address is resolved. *)
Definition canonical (s : string) : string := drop_slash (PyStr.before "#" s).

(** ** Shapes of a cleaned text *)

Module Tidy.
Import PyStr.

(** No two spaces in a row. *)
Fixpoint no_double (s : string) : bool :=
  match s with
  | EmptyString => true
  | String c s' =>
      match s' with
      | EmptyString => true
      | String d _ => negb (Ascii.eqb c " " && Ascii.eqb d " ") && no_double s'
      end
  end.

(** The first character, if any, is not white space. *)
Definition head_ok (s : string) : bool :=
  match s with
  | EmptyString => true
  | String c _ => negb (Scraper.is_space c)
  end.

(** The last character, if any, is not white space. *)
Fixpoint last_ok (s : string) : bool :=
  match s with
  | EmptyString => true
  | String c s' =>
      match s' with
      | EmptyString => negb (Scraper.is_space c)
      | String _ _ => last_ok s'
      end
  end.

(** No line boundary. *)
Definition no_linebreak (s : string) : bool :=
  all_chars (fun c => negb (Scraper.is_linebreak c)) s.

(** A chunk of the cleaned text. *)
Definition chunk_ok (s : string) : Prop :=
  nonempty s = true /\ head_ok s = true /\ last_ok s = true
  /\ no_double s = true /\ no_linebreak s = true.

End Tidy.

(** ** A site served through [scraper.py] *)

Module Served.

(** A site with a dashboard: the root links to it with a fragment. *)
Definition with_dashboard : list (string * list string) :=
  [("http://x.com", ["http://x.com/dashboard#top"]);
   ("http://x.com/dashboard", [])].

(** What [requests] returns: the root answers 200 with one root-relative
    link, the page behind that link answers 404. *)
Definition get (u : string) : option Scraper.Response :=
  if String.eqb u "http://x.com"
  then Some (Scraper.mkResponse 200 " Hello   world "
               [Scraper.mkAnchor "next" "/b"])
  else if String.eqb u "http://x.com/b"
  then Some (Scraper.mkResponse 404 "Not found" [])
  else None.

(** No browser is at hand. *)
Definition render (u : string) : option Scraper.Rendered := None.

End Served.

(** ** The lines that [crawl] prints *)

(** [WebsiteCrawler] above is the crawl as long as every [print] returns.
    This module adds the three [print] calls of [crawl] and what follows
    when one of them raises (a stream that cannot encode the address or
    the text of an exception, a closed stream).  The first stands before
    the [try] and the third after the loop, so an exception of either
    leaves [crawl]; the second stands inside the [except] clause, so an
    exception of it leaves [crawl] as well.  ([__init__] prints only when
    [respect_robots] is set, which [crawl_website] and [main.py] never
    do.) *)

Module Console.

(** The lines, by what they hold: the address and the two numbers of the
    progress line, the address of the error line, the count of the last
    line.  The text of the exception in the error line is not part of the
    model.  An address is dequeued unvisited at most once in a run, so each
    progress line and each error line is printed at most once, and a
    function of the address covers every behaviour of the stream in a
    run. *)
Inductive Message :=
| Crawling (current_url : string) (page : Z) (max_pages : Z)
| ErrorCrawling (current_url : string)
| Complete (visited : Z).

(** How a piece of code ends: it returns, or an exception leaves it.  The
    state reached is kept in both cases. *)
Inductive Ran (A : Type) :=
| Returned (a : A)
| Raised (a : A).

Arguments Returned {A} a.
Arguments Raised {A} a.

Definition state {A : Type} (r : Ran A) : A :=
  match r with
  | Returned a => a
  | Raised a => a
  end.

Section Printing.

Context `{NetlocChecks}.
Variable scrape_static : string -> option ScrapeResult.
Variable scrape_dynamic : string -> option ScrapeResult.
Variable robots : RobotParser.ReadOutcome.

(** [print(line)]: [true] when it returns, [false] when it raises. *)
Variable stdout : Message -> bool.

(** The [except] clause: it prints, and nothing else. *)
Definition handler (c : Crawler) (current_url : string) (page_count : Z)
  : Ran LoopState :=
  if stdout (ErrorCrawling current_url) then Returned (c, page_count)
  else Raised (c, page_count).

(** The [try] statement of [crawl] with its [except] clause. *)
Definition try_body (c : Crawler) (current_url : string) (page_count : Z)
  : Ran LoopState :=
  let k := fetch_kind current_url in
  let c := set_fetch_log (fetch_log c ++ [(k, current_url)]) c in
  match scrape scrape_static scrape_dynamic k current_url with
  | None => handler c current_url page_count
  | Some result =>
      let c := set_results (results c ++ [mkPage current_url result]) c in
      match process_links c current_url (links_of result) with
      | (c, true) => Returned (c, page_count + 1)
      | (c, false) => handler c current_url page_count
      end
  end.

(** One iteration of the [while] loop.  The progress line is printed
    after the test of [visited_urls] and before the address is added to
    it. *)
Definition loop_body (s : LoopState) : Ran LoopState :=
  let '(c, page_count) := s in
  match queue c with
  | [] => Returned s
  | current_url :: rest =>
      let c := set_queue rest c in
      if bool_decide (current_url ∈ visited_urls c) then Returned (c, page_count)
      else if negb (stdout (Crawling current_url (page_count + 1) (max_pages c)))
      then Raised (c, page_count)
      else
        let c := set_visited_urls ({[current_url]} ∪ visited_urls c) c in
        try_body c current_url page_count
  end.

(** The [while] loop; [None] when [fuel] iterations did not end it. *)
Fixpoint crawl_loop (fuel : nat) (s : LoopState) : option (Ran LoopState) :=
  if loop_guard s then
    match fuel with
    | O => None
    | S fuel' =>
        match loop_body s with
        | Returned s' => crawl_loop fuel' s'
        | Raised s' => Some (Raised s')
        end
    end
  else Some (Returned s).

(** [crawl()], with the line printed after the loop. *)
Definition crawl (fuel : nat) (c : Crawler) : option (Ran Crawler) :=
  match crawl_loop fuel (c, 0) with
  | None => None
  | Some (Raised s) => Some (Raised (fst s))
  | Some (Returned s) =>
      let c := fst s in
      if stdout (Complete (Z.of_nat (size (visited_urls c))))
      then Some (Returned c)
      else Some (Raised c)
  end.

(** The handler of [/scrape] in [main.py]: it builds a crawler with
    [respect_robots=False] and calls [crawl]; an exception of either is
    answered with the status 500.  ([crawl_website] does the same and
    lets the exception through.)  The outer [option] is [None] when
    [fuel] did not suffice. *)
Definition scrape_website (fuel : nat) (url : string) (max_pages : Z)
  : option Response :=
  match init robots url max_pages false with
  | None => Some ServerError
  | Some c =>
      match crawl fuel c with
      | None => None
      | Some (Returned c') => Some (Success (results c'))
      | Some (Raised _) => Some ServerError
      end
  end.

(** The calls made to the scraper while [scrape_website] ran. *)
Definition scrape_website_log (fuel : nat) (url : string) (max_pages : Z)
  : option (list (FetchKind * string)) :=
  match init robots url max_pages false with
  | None => Some []
  | Some c => option_map (fun r => fetch_log (state r)) (crawl fuel c)
  end.

End Printing.

(** A stream that takes every line. *)
Definition accepts_all (m : Message) : bool := true.

(** A stream that encodes ASCII only, the texts of the exceptions being
    ASCII. *)
Definition ascii_only (m : Message) : bool :=
  match m with
  | Crawling u _ _ => PyStr.all_chars PyStr.is_ascii_char u
  | ErrorCrawling u => PyStr.all_chars PyStr.is_ascii_char u
  | Complete _ => true
  end.

(** A stream that cannot encode the text of the exceptions. *)
Definition no_error_text (m : Message) : bool :=
  match m with
  | ErrorCrawling _ => false
  | _ => true
  end.

(** An address with the letter e-acute (U+00E9) in its path. *)
Definition accented : string := "http://x.com/" +:+ String "233" EmptyString.

End Console.

(** ** Plain addresses *)






(** ** A robots file on which [can_fetch] raises *)

(** The seed has [%5D] in its netloc: [urlparse] accepts it as it stands,
    and [can_fetch], which parses the unquoted address, raises on every
    address of that netloc.  The file itself allows everything. *)
Definition quoted_bracket_rules (u : string) : option bool :=
  if PyStr.startswith u "http://x.com%5D" then None else Some true.

(** * Properties *)

(** Unfolding of the functions that the sections below abbreviate. *)
Ltac open_try_body := unfold try_body.
Ltac open_loop_body := unfold loop_body.
Ltac open_crawl_in H := unfold crawl in H.
Ltac open_crawl := unfold crawl.

(** ** Facts about the string methods *)

Module PyStrFacts.
Import PyStr.

Lemma str_app_nil_l (s : string) : EmptyString +:+ s = s.
Proof. reflexivity. Qed.

Lemma str_app_cons (c : ascii) (s t : string) :
  String c s +:+ t = String c (s +:+ t).
Proof. reflexivity. Qed.

Lemma str_app_nil_r (s : string) : s +:+ EmptyString = s.
Proof. induction s as [|c s IH]; [reflexivity|]. rewrite str_app_cons, IH. reflexivity. Qed.

Lemma str_app_assoc (s t u : string) : (s +:+ t) +:+ u = s +:+ (t +:+ u).
Proof.
  induction s as [|c s IH]; [reflexivity|].
  rewrite !str_app_cons, IH. reflexivity.
Qed.

Lemma str_length_app (s t : string) :
  String.length (s +:+ t) = (String.length s + String.length t)%nat.
Proof.
  induction s as [|c s IH]; [reflexivity|].
  rewrite str_app_cons. simpl. rewrite IH. reflexivity.
Qed.

(** [startswith] is the prefix test. *)
Lemma startswith_spec (s p : string) :
  startswith s p = true <-> exists r, s = p +:+ r.
Proof.
  revert s. induction p as [|c p IH]; intros s.
  - simpl. split; [intros _; exists s; reflexivity | reflexivity].
  - destruct s as [|d s]; simpl.
    + split; [discriminate | intros [r Hr]; discriminate].
    + rewrite andb_true_iff, Ascii.eqb_eq, IH. split.
      * intros [-> [r ->]]. exists r. reflexivity.
      * intros [r Hr]. rewrite str_app_cons in Hr. injection Hr as -> ->.
        split; [reflexivity | exists r; reflexivity].
Qed.

Lemma startswith_app (p r : string) : startswith (p +:+ r) p = true.
Proof. apply startswith_spec. exists r. reflexivity. Qed.

Lemma endswith_nil (suf : string) :
  endswith EmptyString suf = String.eqb EmptyString suf.
Proof. cbn [endswith]. apply orb_false_r. Qed.

Lemma endswith_cons (c : ascii) (s suf : string) :
  endswith (String c s) suf = String.eqb (String c s) suf || endswith s suf.
Proof. reflexivity. Qed.

(** [endswith] is the suffix test. *)
Lemma endswith_spec (s suf : string) :
  endswith s suf = true <-> exists pre, s = pre +:+ suf.
Proof.
  induction s as [|c s IH].
  - rewrite endswith_nil, String.eqb_eq. split.
    + intros <-. exists EmptyString. reflexivity.
    + intros [pre Hpre]. destruct pre as [|d pre]; [exact Hpre | discriminate].
  - rewrite endswith_cons, orb_true_iff, String.eqb_eq, IH. split.
    + intros [<- | [pre ->]].
      * exists EmptyString. reflexivity.
      * exists (String c pre). reflexivity.
    + intros [pre Hpre]. destruct pre as [|d pre].
      * left. exact Hpre.
      * right. rewrite str_app_cons in Hpre. injection Hpre as _ ->.
        exists pre. reflexivity.
Qed.

(** [contains] is the substring test. *)
Lemma contains_spec (s t : string) :
  contains s t = true <-> exists pre post, s = pre +:+ t +:+ post.
Proof.
  induction s as [|c s IH].
  - simpl. rewrite orb_false_r, startswith_spec. split.
    + intros [r Hr]. exists EmptyString, r. exact Hr.
    + intros [pre [post Hs]]. destruct pre as [|d pre]; [|discriminate].
      exists post. exact Hs.
  - simpl. rewrite orb_true_iff, startswith_spec, IH. split.
    + intros [[r Hr] | [pre [post ->]]].
      * exists EmptyString, r. exact Hr.
      * exists (String c pre), post. reflexivity.
    + intros [pre [post Hs]]. destruct pre as [|d pre].
      * left. exists post. exact Hs.
      * right. rewrite str_app_cons in Hs. injection Hs as _ ->.
        exists pre, post. reflexivity.
Qed.

Lemma has_char_app (c : ascii) (s t : string) :
  has_char c (s +:+ t) = has_char c s || has_char c t.
Proof.
  induction s as [|d s IH]; [reflexivity|].
  rewrite str_app_cons. simpl. rewrite IH, orb_assoc. reflexivity.
Qed.

(** [partition] cuts at the first occurrence of the character. *)
Lemma partition_found (c : ascii) (s b a : string) :
  partition c s = (b, Some a) ->
  s = b +:+ String c a /\ has_char c b = false.
Proof.
  revert b a. induction s as [|d s IH]; intros b a; simpl.
  - discriminate.
  - destruct (Ascii.eqb d c) eqn:E.
    + apply Ascii.eqb_eq in E. subst d. intros [= <- <-]. split; reflexivity.
    + destruct (partition c s) as [b' a'] eqn:P. intros [= <- ->].
      destruct (IH b' a eq_refl) as [-> Hb]. split.
      * reflexivity.
      * simpl. rewrite E, Hb. reflexivity.
Qed.

Lemma partition_not_found (c : ascii) (s b : string) :
  partition c s = (b, None) -> b = s /\ has_char c s = false.
Proof.
  revert b. induction s as [|d s IH]; intros b; simpl.
  - intros [= <-]. split; reflexivity.
  - destruct (Ascii.eqb d c) eqn:E; [discriminate|].
    destruct (partition c s) as [b' a'] eqn:P. intros [= <- ->].
    destruct (IH b' eq_refl) as [-> Hs]. split; [reflexivity|].
    rewrite Hs. reflexivity.
Qed.

(** What [s.split(c)[0]] removes is empty or starts with [c], and what it
    keeps has no [c]. *)
Lemma before_spec (c : ascii) (s : string) :
  has_char c (before c s) = false
  /\ ((before c s = s /\ has_char c s = false)
      \/ exists a, s = before c s +:+ String c a).
Proof.
  unfold before. destruct (partition c s) as [b [a|]] eqn:P; simpl.
  - destruct (partition_found _ _ _ _ P) as [-> Hb]. split; [exact Hb|].
    right. exists a. reflexivity.
  - destruct (partition_not_found _ _ _ P) as [-> Hs]. split; [exact Hs|].
    left. split; [reflexivity | exact Hs].
Qed.

Lemma before_no_char (c : ascii) (s : string) :
  has_char c s = false -> before c s = s.
Proof.
  intros Hs. destruct (before_spec c s) as [_ [[E _] | [a Ha]]]; [exact E|].
  rewrite Ha, has_char_app in Hs. simpl in Hs.
  rewrite Ascii.eqb_refl in Hs. simpl in Hs.
  rewrite orb_true_r in Hs. discriminate.
Qed.

(** [s[:-1]] removes the last character. *)
Lemma drop_last_snoc (s : string) (c : ascii) :
  drop_last (s +:+ String c EmptyString) = s.
Proof.
  induction s as [|d s IH]; [reflexivity|].
  rewrite str_app_cons.
  change (drop_last (String d (s +:+ String c EmptyString)))
    with (match s +:+ String c EmptyString with
          | EmptyString => EmptyString
          | String _ _ => String d (drop_last (s +:+ String c EmptyString))
          end).
  rewrite IH. destruct s; reflexivity.
Qed.

End PyStrFacts.

(** ** The normaliser, the scope filter and the dispatch *)

Section FilterFacts.
Import PyStr PyStrFacts.

Context `{NetlocChecks}.


(** What [normalize_url] does to the resolved address [r]: it cuts the
    fragment and then one final slash. *)
Lemma canonical_decompose (r : string) :
  let b := before "#" r in
  let n := if endswith b "/" then drop_last b else b in
  exists slash frag,
    r = n +:+ slash +:+ frag
    /\ (slash = EmptyString \/ slash = "/")
    /\ (frag = EmptyString \/ exists f, frag = String "#" f)
    /\ has_char "#" n = false
    /\ (slash = EmptyString -> endswith n "/" = false).
Proof.
  intros b n. subst n.
  destruct (before_spec "#" r) as [Hb Hr]. fold b in Hb, Hr.
  assert (Hfrag : exists frag, r = b +:+ frag
                    /\ (frag = EmptyString \/ exists f, frag = String "#" f)).
  { destruct Hr as [[E _] | [a Ha]].
    - exists EmptyString. rewrite str_app_nil_r. split; [symmetry; exact E | left; reflexivity].
    - exists (String "#" a). split; [exact Ha | right; exists a; reflexivity]. }
  destruct Hfrag as [frag [Hrb Hfrag]].
  destruct (endswith b "/") eqn:E.
  - apply endswith_spec in E. destruct E as [pre Hpre].
    rewrite Hpre, drop_last_snoc. exists "/", frag. repeat split.
    + rewrite Hrb, Hpre, str_app_assoc. reflexivity.
    + right. reflexivity.
    + exact Hfrag.
    + rewrite Hpre, has_char_app in Hb. apply orb_false_iff in Hb. tauto.
    + discriminate.
  - exists EmptyString, frag. repeat split.
    + rewrite Hrb. reflexivity.
    + left. reflexivity.
    + exact Hfrag.
    + exact Hb.
    + intros _. exact E.
Qed.

Lemma has_skip_extension_spec (url : string) :
  has_skip_extension url = true
  <-> exists ext pre, In ext skip_extensions /\ lower url = pre +:+ ext.
Proof.
  unfold has_skip_extension. rewrite existsb_exists. split.
  - intros [ext [Hin He]]. apply endswith_spec in He. destruct He as [pre He].
    exists ext, pre. split; assumption.
  - intros [ext [pre [Hin He]]]. exists ext. split; [exact Hin|].
    apply endswith_spec. exists pre. exact He.
Qed.

Lemma http_prefixed_spec (url : string) :
  startswith_any url http_prefixes = true
  <-> (exists r, url = "http://" +:+ r) \/ (exists r, url = "https://" +:+ r).
Proof.
  unfold startswith_any, http_prefixes. cbn [existsb].
  rewrite orb_false_r, orb_true_iff, !startswith_spec. reflexivity.
Qed.

(** C5, as the code has it.  [should_crawl] looks at an address in the
    order of the source.  It returns [False] at once for an address that
    does not start with [http://] or [https://] or that is in
    [visited_urls].  Otherwise it parses the address, and raises when
    [urlparse] does.  With the netloc at hand it returns [False] when the
    netloc is not [base_domain]; otherwise, while [respect_robots] is
    set, it asks [can_fetch], raises when [can_fetch] does and returns
    [False] when [can_fetch] refuses; otherwise it returns [False] if the
    address ends, once in lower case, with one of the fourteen
    extensions, and [True] if not.  An address ending in [.pdf] is never
    accepted: the call returns [False] or raises. *)
Theorem should_crawl_spec (c : Crawler) (url : string) :
  let http :=
    (exists r, url = "http://" +:+ r) \/ (exists r, url = "https://" +:+ r) in
  let extension :=
    exists ext pre, In ext skip_extensions /\ lower url = pre +:+ ext in
  let robots := RobotParser.can_fetch (robot_parser c) url in
  (should_crawl c url = Some false
   <-> ~ http
       \/ url ∈ visited_urls c
       \/ exists p,
            UrlParse.urlparse url EmptyString = Some p
            /\ (UrlParse.p_netloc p <> base_domain c
                \/ (respect_robots c = true /\ robots = Some false)
                \/ ((respect_robots c = true -> robots <> None)
                    /\ extension)))
  /\ (should_crawl c url = None
      <-> http /\ (url ∉ visited_urls c)
          /\ (UrlParse.urlparse url EmptyString = None
              \/ exists p,
                   UrlParse.urlparse url EmptyString = Some p
                   /\ UrlParse.p_netloc p = base_domain c
                   /\ respect_robots c = true /\ robots = None))
  /\ (should_crawl c url = Some true
      <-> http /\ (url ∉ visited_urls c)
          /\ exists p,
               UrlParse.urlparse url EmptyString = Some p
               /\ UrlParse.p_netloc p = base_domain c
               /\ (respect_robots c = true -> robots = Some true)
               /\ ~ extension)
  /\ skip_extensions
     = [".pdf"; ".jpg"; ".jpeg"; ".png"; ".gif"; ".css"; ".js";
        ".zip"; ".tar"; ".gz"; ".mp3"; ".mp4"; ".avi"; ".mov"]
  /\ ((exists pre, lower url = pre +:+ ".pdf") ->
      should_crawl c url <> Some true).
Proof.
  intros http extension robots.
  assert (Hh : startswith_any url http_prefixes = true <-> http)
    by apply http_prefixed_spec.
  assert (Hx : has_skip_extension url = true <-> extension)
    by apply has_skip_extension_spec.
  assert (Hpdf : (exists pre, lower url = pre +:+ ".pdf") -> extension).
  { intros [pre Hpre]. exists ".pdf", pre.
    split; [left; reflexivity | exact Hpre]. }
  clearbody http extension. subst robots.
  unfold should_crawl, is_same_domain, is_allowed.
  destruct (startswith_any url http_prefixes) eqn:Eh; simpl negb; cbv iota.
  2:{ assert (Hn : ~ http) by (intros X; apply Hh in X; discriminate).
      repeat split; try discriminate; try tauto. }
  assert (Hhttp : http) by (apply Hh; reflexivity). clear Hh.
  destruct (bool_decide (url ∈ visited_urls c)) eqn:Ev.
  { apply bool_decide_eq_true in Ev.
    repeat split; try discriminate; try tauto. }
  apply bool_decide_eq_false in Ev.
  destruct (UrlParse.urlparse url EmptyString) as [p|] eqn:Ep.
  2:{ repeat split; try discriminate; try tauto.
      - intros [Hn | [Hv | (p & Hp & _)]];
          [contradiction | contradiction | discriminate].
      - intros (_ & _ & p & Hp & _). discriminate. }
  destruct (String.eqb (UrlParse.p_netloc p) (base_domain c)) eqn:Ed.
  2:{ apply String.eqb_neq in Ed.
      repeat split; try discriminate; try tauto.
      - intros _. right. right. exists p. split; [reflexivity | left; exact Ed].
      - intros (_ & _ & [Hp | (p' & [= <-] & Hd & _)]);
          [discriminate | contradiction].
      - intros (_ & _ & p' & [= <-] & Hd & _). contradiction. }
  apply String.eqb_eq in Ed.
  assert (Hext : has_skip_extension url = true -> extension) by apply Hx.
  assert (Hnext : has_skip_extension url = false -> ~ extension)
    by (intros E X; apply Hx in X; congruence).
  clear Hx.
  destruct (respect_robots c) eqn:Er; simpl negb; cbv iota.
  - destruct (RobotParser.can_fetch (robot_parser c) url) as [[|]|] eqn:Ec.
    + destruct (has_skip_extension url) eqn:Ee; simpl negb.
      * specialize (Hext eq_refl).
        repeat split; try discriminate; try tauto.
        -- intros _. right. right. exists p. split; [reflexivity|].
           right. right. split; [discriminate | exact Hext].
        -- intros (_ & _ & [Hp | (p' & _ & _ & _ & Hc)]); discriminate.
        -- intros (_ & _ & p' & _ & _ & _ & Hn). contradiction.
      * specialize (Hnext eq_refl).
        repeat split; try discriminate; try tauto.
        -- intros [Hn | [Hv | (p' & [= <-] & [Hd | [[_ Hc] | [_ Hxx]]])]];
             [contradiction | contradiction | contradiction
             | discriminate | contradiction].
        -- intros (_ & _ & [Hp | (p' & _ & _ & _ & Hc)]); discriminate.
        -- exists p. repeat split; [exact Ed | exact Hnext].
    + repeat split; try discriminate; try tauto.
      * intros _. right. right. exists p. split; [reflexivity|].
        right. left. split; reflexivity.
      * intros (_ & _ & [Hp | (p' & _ & _ & _ & Hc)]); discriminate.
      * intros (_ & _ & p' & _ & _ & Hc & _). specialize (Hc eq_refl).
        discriminate.
    + repeat split; try discriminate; try tauto.
      * intros [Hn | [Hv | (p' & [= <-] & [Hd | [[_ Hc] | [Hc _]]])]];
          [contradiction | contradiction | contradiction
          | discriminate | exfalso; apply Hc; reflexivity].
      * right. exists p. repeat split. exact Ed.
      * intros (_ & _ & p' & _ & _ & Hc & _). specialize (Hc eq_refl).
        discriminate.
  - destruct (has_skip_extension url) eqn:Ee; simpl negb.
    + specialize (Hext eq_refl).
      repeat split; try discriminate; try tauto.
      * intros _. right. right. exists p. split; [reflexivity|].
        right. right. split; [discriminate | exact Hext].
      * intros (_ & _ & [Hp | (p' & _ & _ & Hr & _)]); discriminate.
      * intros (_ & _ & p' & _ & _ & _ & Hn). contradiction.
    + specialize (Hnext eq_refl).
      repeat split; try discriminate; try tauto.
      * intros [Hn | [Hv | (p' & [= <-] & [Hd | [[Hr _] | [_ Hxx]]])]];
          [contradiction | contradiction | contradiction
          | discriminate | contradiction].
      * intros (_ & _ & [Hp | (p' & _ & _ & Hr & _)]); discriminate.
      * exists p. repeat split; [exact Ed | discriminate | exact Hnext].
Qed.

(** The substring test behind the dispatch. *)
Lemma is_likely_dynamic_spec (u : string) :
  is_likely_dynamic u = true
  <-> exists tok pre post, In tok dynamic_tokens /\ u = pre +:+ tok +:+ post.
Proof.
  unfold is_likely_dynamic. rewrite existsb_exists. split.
  - intros [tok [Hin Hc]]. apply contains_spec in Hc.
    destruct Hc as [pre [post Hc]]. exists tok, pre, post. split; assumption.
  - intros [tok [pre [post [Hin Hc]]]]. exists tok. split; [exact Hin|].
    apply contains_spec. exists pre, post. exact Hc.
Qed.

End FilterFacts.

(** ** One iteration of the loop *)

Section LoopFacts.
Import PyStr PyStrFacts.

Context `{NetlocChecks}.
Variable scrape_static : string -> option ScrapeResult.
Variable scrape_dynamic : string -> option ScrapeResult.

Local Abbreviation scrape := (scrape scrape_static scrape_dynamic).
Local Abbreviation try_body := (try_body scrape_static scrape_dynamic).
Local Abbreviation loop_body := (loop_body scrape_static scrape_dynamic).
Local Abbreviation crawl_loop := (crawl_loop scrape_static scrape_dynamic).

Lemma same_config_refl (c : Crawler) : same_config c c.
Proof. repeat split. Qed.

Lemma same_config_trans (c1 c2 c3 : Crawler) :
  same_config c1 c2 -> same_config c2 c3 -> same_config c1 c3.
Proof. unfold same_config. intuition congruence. Qed.

(** The link loop only appends to the queue. *)
Lemma process_links_frame (u : string) (links : list string) (c : Crawler) :
  let c' := fst (process_links c u links) in
  same_config c c'
  /\ results c' = results c
  /\ visited_urls c' = visited_urls c
  /\ fetch_log c' = fetch_log c
  /\ exists added, queue c' = queue c ++ added.
Proof.
  revert c. induction links as [|l links IH]; intros c; simpl.
  - repeat split. exists []. rewrite List.app_nil_r. reflexivity.
  - destruct (normalize_url l u) as [n|]; simpl.
    2:{ repeat split. exists []. rewrite List.app_nil_r. reflexivity. }
    destruct (should_crawl c n) as [[|]|]; simpl.
    + destruct (IH (set_queue (queue c ++ [n]) c))
        as (Hc & Hr & Hv & Hl & added & Hq).
      repeat split; try apply Hc; try assumption.
      exists (n :: added). rewrite Hq. simpl. rewrite <- List.app_assoc. reflexivity.
    + apply IH.
    + repeat split. exists []. rewrite List.app_nil_r. reflexivity.
Qed.

(** The [try] block: one call to the scraper, at most one record, the
    counter up by at most one. *)
Lemma try_body_frame (c : Crawler) (u : string) (pc : Z) :
  let s' := try_body c u pc in
  same_config c (fst s')
  /\ visited_urls (fst s') = visited_urls c
  /\ fetch_log (fst s') = fetch_log c ++ [(fetch_kind u, u)]
  /\ results (fst s')
     = results c ++ match scrape (fetch_kind u) u with
                    | Some r => [mkPage u r]
                    | None => []
                    end
  /\ (exists added, queue (fst s') = queue c ++ added)
  /\ (snd s' = pc \/ (snd s' = pc + 1 /\ scrape (fetch_kind u) u <> None)).
Proof.
  open_try_body.
  destruct (scrape (fetch_kind u) u) as [r|] eqn:E; simpl.
  - pose proof (process_links_frame u (links_of r)
      (set_results (results c ++ [mkPage u r])
         (set_fetch_log (fetch_log c ++ [(fetch_kind u, u)]) c)))
      as (Hc & Hr & Hv & Hl & Hq).
    destruct (process_links _ u (links_of r)) as [c' [|]]; simpl in *.
    + repeat split; try apply Hc; try assumption. right. split; [reflexivity|discriminate].
    + repeat split; try apply Hc; try assumption. left. reflexivity.
  - repeat split.
    + rewrite List.app_nil_r. reflexivity.
    + exists []. rewrite List.app_nil_r. reflexivity.
    + left. reflexivity.
Qed.

Lemma loop_body_skip (c : Crawler) (pc : Z) (u : string) (q : list string) :
  queue c = u :: q -> u ∈ visited_urls c ->
  loop_body (c, pc) = (set_queue q c, pc).
Proof.
  intros Hq Hv. open_loop_body. rewrite Hq. simpl.
  rewrite bool_decide_eq_true_2 by exact Hv. reflexivity.
Qed.

Lemma loop_body_fetch (c : Crawler) (pc : Z) (u : string) (q : list string) :
  queue c = u :: q -> u ∉ visited_urls c ->
  loop_body (c, pc)
  = try_body (set_visited_urls ({[u]} ∪ visited_urls c) (set_queue q c)) u pc.
Proof.
  intros Hq Hv. open_loop_body. rewrite Hq. simpl.
  rewrite bool_decide_eq_false_2 by exact Hv. reflexivity.
Qed.

(** C10.  A dequeued address that is not yet visited is sent to
    [scrape_dynamic] if and only if it contains one of the tokens [#],
    [vue], [react], [angular], [spa], [dashboard], and to [scrape_static]
    otherwise: the call made and the record stored are those of the
    scraper chosen that way. *)
Theorem dispatch_spec (c : Crawler) (pc : Z) (u : string) (q : list string) :
  queue c = u :: q -> u ∉ visited_urls c ->
  let s' := loop_body (c, pc) in
  dynamic_tokens = ["#"; "vue"; "react"; "angular"; "spa"; "dashboard"]
  /\ (is_likely_dynamic u = true
      <-> exists tok pre post, In tok dynamic_tokens /\ u = pre +:+ tok +:+ post)
  /\ fetch_log (fst s')
     = fetch_log c ++ [(if is_likely_dynamic u then Dynamic else Static, u)]
  /\ results (fst s')
     = results c
       ++ match (if is_likely_dynamic u then scrape_dynamic u
                 else scrape_static u) with
          | Some r => [mkPage u r]
          | None => []
          end.
Proof.
  intros Hq Hv s'. subst s'. rewrite (loop_body_fetch c pc u q Hq Hv).
  pose proof (try_body_frame
    (set_visited_urls ({[u]} ∪ visited_urls c) (set_queue q c)) u pc)
    as (_ & _ & Hl & Hr & _).
  split; [reflexivity|]. split; [apply is_likely_dynamic_spec|].
  split.
  - rewrite Hl. reflexivity.
  - rewrite Hr. simpl. unfold fetch_kind.
    destruct (is_likely_dynamic u); reflexivity.
Qed.

End LoopFacts.

(** ** Runs of the loop *)

Section RunFacts.
Import PyStr PyStrFacts.

Context `{NetlocChecks}.
Variable scrape_static : string -> option ScrapeResult.
Variable scrape_dynamic : string -> option ScrapeResult.

Local Abbreviation scrape := (scrape scrape_static scrape_dynamic).
Local Abbreviation try_body := (try_body scrape_static scrape_dynamic).
Local Abbreviation loop_body := (loop_body scrape_static scrape_dynamic).
Local Abbreviation crawl_loop := (crawl_loop scrape_static scrape_dynamic).
Local Abbreviation crawl := (crawl scrape_static scrape_dynamic).

Lemma crawl_loop_done (fuel : nat) (s : LoopState) :
  loop_guard s = false -> crawl_loop fuel s = Some s.
Proof. intros Hg. destruct fuel; simpl; rewrite Hg; reflexivity. Qed.

Lemma crawl_loop_step (fuel : nat) (s : LoopState) :
  loop_guard s = true -> crawl_loop (S fuel) s = crawl_loop fuel (loop_body s).
Proof. intros Hg. simpl. rewrite Hg. reflexivity. Qed.

Lemma crawl_loop_ends (fuel : nat) (s s' : LoopState) :
  crawl_loop fuel s = Some s' -> loop_guard s' = false.
Proof.
  revert s. induction fuel as [|fuel IH]; intros s; simpl;
    destruct (loop_guard s) eqn:Hg; try discriminate.
  - intros [= <-]. exact Hg.
  - apply IH.
  - intros [= <-]. exact Hg.
Qed.

Lemma grows_refl (c : Crawler) : grows c c.
Proof.
  split; [apply same_config_refl|]. split; [reflexivity|].
  split; [exists []; rewrite List.app_nil_r; reflexivity|].
  exists []. rewrite List.app_nil_r. split; [reflexivity|].
  split; [constructor | intros u []].
Qed.

Lemma grows_trans (c1 c2 c3 : Crawler) :
  grows c1 c2 -> grows c2 c3 -> grows c1 c3.
Proof.
  intros (Hc1 & Hv1 & [l1 Hl1] & n1 & Hr1 & Hd1 & Hn1)
         (Hc2 & Hv2 & [l2 Hl2] & n2 & Hr2 & Hd2 & Hn2).
  split; [eapply same_config_trans; eassumption|].
  split; [etransitivity; eassumption|].
  split; [exists (l1 ++ l2); rewrite Hl2, Hl1, List.app_assoc; reflexivity|].
  exists (n1 ++ n2). split; [rewrite Hr2, Hr1, List.app_assoc; reflexivity|].
  rewrite map_app. split.
  - apply List.NoDup_app; try assumption.
    intros u Hu1 Hu2. apply Hn1 in Hu1. apply Hn2 in Hu2. tauto.
  - intros u Hu. apply in_app_or in Hu. destruct Hu as [Hu | Hu].
    + apply Hn1 in Hu. split; [tauto|]. apply Hv2. tauto.
    + apply Hn2 in Hu. split; [|tauto]. intros Hin. apply Hv1 in Hin. tauto.
Qed.

Lemma loop_body_grows (s : LoopState) : grows (fst s) (fst (loop_body s)).
Proof.
  destruct s as [c pc]. simpl fst at 1.
  destruct (queue c) as [|u q] eqn:Hq.
  - open_loop_body. rewrite Hq. apply grows_refl.
  - destruct (decide (u ∈ visited_urls c)) as [Hv | Hv].
    + rewrite (loop_body_skip _ _ c pc u q Hq Hv). simpl.
      split; [repeat split|]. split; [reflexivity|].
      split; [exists []; rewrite List.app_nil_r; reflexivity|].
      exists []. rewrite List.app_nil_r. split; [reflexivity|].
      split; [constructor | intros u' []].
    + rewrite (loop_body_fetch _ _ c pc u q Hq Hv).
      pose proof (try_body_frame scrape_static scrape_dynamic
        (set_visited_urls ({[u]} ∪ visited_urls c) (set_queue q c)) u pc)
        as (Hc & Hvis & Hl & Hr & _ & _).
      simpl in Hc, Hvis, Hl, Hr.
      split; [exact Hc|]. rewrite Hvis.
      split; [apply union_subseteq_r|]. split; [eexists; exact Hl|].
      eexists. split; [exact Hr|].
      destruct (scrape (fetch_kind u) u) as [r|]; simpl.
      * split; [repeat constructor; intros []|].
        intros u' [<- | []]. split; [exact Hv|].
        apply elem_of_union_l, elem_of_singleton. reflexivity.
      * split; [constructor | intros u' []].
Qed.

Lemma crawl_loop_grows (fuel : nat) (s s' : LoopState) :
  crawl_loop fuel s = Some s' -> grows (fst s) (fst s').
Proof.
  revert s. induction fuel as [|fuel IH]; intros s; simpl;
    destruct (loop_guard s); try discriminate.
  - intros [= <-]. apply grows_refl.
  - intros Hs. eapply grows_trans; [apply loop_body_grows | apply IH, Hs].
  - intros [= <-]. apply grows_refl.
Qed.

Lemma try_body_failed (c : Crawler) (u : string) (pc : Z) :
  scrape (fetch_kind u) u = None ->
  try_body c u pc = (set_fetch_log (fetch_log c ++ [(fetch_kind u, u)]) c, pc).
Proof. intros E. open_try_body. rewrite E. reflexivity. Qed.

(** C6.  After any run from a fresh crawler, no two records of [results]
    have the same address, however often an address was queued; and a
    dequeued address that is already in [visited_urls] is dropped with no
    call to the scraper, no record and no change of the counter. *)
Theorem one_record_per_url (robots : RobotParser.ReadOutcome)
    (base : string) (limit : Z) (respect : bool) (fuel : nat)
    (c0 c' : Crawler) :
  init robots base limit respect = Some c0 ->
  crawl fuel c0 = Some c' ->
  List.NoDup (map url (results c'))
  /\ (forall u, In u (map url (results c')) -> u ∈ visited_urls c')
  /\ (forall c pc u q,
        queue c = u :: q -> u ∈ visited_urls c ->
        let s' := loop_body (c, pc) in
        snd s' = pc
        /\ fetch_log (fst s') = fetch_log c
        /\ results (fst s') = results c
        /\ visited_urls (fst s') = visited_urls c
        /\ queue (fst s') = q).
Proof.
  intros Hinit Hrun.
  assert (Hfresh : results c0 = [] /\ visited_urls c0 = ∅).
  { unfold init in Hinit.
    destruct (UrlParse.urlparse base EmptyString); [|discriminate].
    destruct respect.
    - destruct (UrlParse.urljoin base "/robots.txt"); [|discriminate].
      injection Hinit as <-. split; reflexivity.
    - injection Hinit as <-. split; reflexivity. }
  destruct Hfresh as [Hr0 Hv0].
  open_crawl_in Hrun.
  destruct (crawl_loop fuel (c0, 0)) as [s'|] eqn:Hloop; [|discriminate].
  injection Hrun as <-. apply crawl_loop_grows in Hloop.
  destruct Hloop as (_ & _ & _ & new & Hres & Hnd & Hnew). simpl fst in *.
  rewrite Hr0 in Hres. simpl in Hres. rewrite Hres.
  split; [exact Hnd|]. split; [intros u Hu; apply Hnew, Hu|].
  intros c pc u q Hq Hv s'0. subst s'0.
  rewrite (loop_body_skip _ _ c pc u q Hq Hv). repeat split.
Qed.

Lemma try_body_counted (c : Crawler) (u : string) (pc : Z) (r : ScrapeResult) :
  scrape (fetch_kind u) u = Some r ->
  snd (process_links
         (set_results (results c ++ [mkPage u r])
            (set_fetch_log (fetch_log c ++ [(fetch_kind u, u)]) c))
         u (links_of r)) = true ->
  snd (try_body c u pc) = pc + 1
  /\ results (fst (try_body c u pc)) = results c ++ [mkPage u r].
Proof.
  intros E Hl. open_try_body. rewrite E.
  pose proof (process_links_frame u (links_of r)
    (set_results (results c ++ [mkPage u r])
       (set_fetch_log (fetch_log c ++ [(fetch_kind u, u)]) c)))
    as (_ & Hr & _).
  destruct (process_links _ u (links_of r)) as [c' b]. simpl in *.
  subst b. split; [reflexivity | exact Hr].
Qed.

(** The counter never passes a limit it started below. *)
Lemma crawl_loop_counter (fuel : nat) (s s' : LoopState) :
  crawl_loop fuel s = Some s' ->
  snd s <= max_pages (fst s) ->
  snd s' <= max_pages (fst s') /\ snd s <= snd s'.
Proof.
  revert s. induction fuel as [|fuel IH]; intros s; simpl;
    destruct (loop_guard s) eqn:Hg; try discriminate.
  - intros [= <-]. lia.
  - intros Hrun Hle. destruct s as [c pc]. simpl fst in *; simpl snd in *.
    assert (Hlt : pc < max_pages c).
    { unfold loop_guard in Hg. simpl in Hg.
      destruct (queue c); [discriminate|]. apply Z.ltb_lt. exact Hg. }
    assert (Hstep : max_pages (fst (loop_body (c, pc))) = max_pages c
                    /\ pc <= snd (loop_body (c, pc)) <= pc + 1).
    { destruct (queue c) as [|u q] eqn:Hq.
      - open_loop_body. rewrite Hq. simpl. lia.
      - destruct (decide (u ∈ visited_urls c)) as [Hv | Hv].
        + rewrite (loop_body_skip _ _ c pc u q Hq Hv). simpl. lia.
        + rewrite (loop_body_fetch _ _ c pc u q Hq Hv).
          pose proof (try_body_frame scrape_static scrape_dynamic
            (set_visited_urls ({[u]} ∪ visited_urls c) (set_queue q c)) u pc)
            as (Hc & _ & _ & _ & _ & Hpc).
          split; [apply Hc|]. destruct Hpc as [-> | [-> _]]; lia. }
    destruct Hstep as [Hmax Hpc].
    destruct (IH _ Hrun) as [H1 H2]; [rewrite Hmax; lia|].
    split; [exact H1 | lia].
  - intros [= <-]. lia.
Qed.

Section LinksNeverRaise.
Variable c0 : Crawler.
Hypothesis Hlinks : links_never_raise scrape_static scrape_dynamic c0.

(** Each record comes with one step of the counter. *)
Lemma loop_body_counts (s : LoopState) :
  same_config c0 (fst s) ->
  Z.of_nat (length (results (fst (loop_body s)))) - snd (loop_body s)
  = Z.of_nat (length (results (fst s))) - snd s.
Proof.
  destruct s as [c pc]. simpl fst at 1. intros Hcfg.
  destruct (queue c) as [|u q] eqn:Hq.
  - open_loop_body. rewrite Hq. reflexivity.
  - destruct (decide (u ∈ visited_urls c)) as [Hv | Hv].
    + rewrite (loop_body_skip _ _ c pc u q Hq Hv). reflexivity.
    + rewrite (loop_body_fetch _ _ c pc u q Hq Hv).
      destruct (scrape (fetch_kind u) u) as [r|] eqn:E.
      * destruct (try_body_counted
          (set_visited_urls ({[u]} ∪ visited_urls c) (set_queue q c))
          u pc r E) as [Hpc Hr]; [eapply Hlinks; [exact Hcfg | exact E]|].
        rewrite Hpc, Hr, length_app. simpl. lia.
      * rewrite (try_body_failed _ u pc E). reflexivity.
Qed.

Lemma crawl_loop_counts (fuel : nat) (s s' : LoopState) :
  same_config c0 (fst s) ->
  crawl_loop fuel s = Some s' ->
  Z.of_nat (length (results (fst s'))) - snd s'
  = Z.of_nat (length (results (fst s))) - snd s.
Proof.
  revert s. induction fuel as [|fuel IH]; intros s Hcfg; simpl;
    destruct (loop_guard s); try discriminate.
  - intros [= <-]. reflexivity.
  - intros Hrun. rewrite (IH _ (same_config_trans _ _ _ Hcfg
                                  (proj1 (loop_body_grows s))) Hrun).
    apply loop_body_counts. exact Hcfg.
  - intros [= <-]. reflexivity.
Qed.

(** When no link raises, the loop ends: every iteration either
    shortens the queue or moves the counter towards the limit. *)
Lemma crawl_loop_terminates (s : LoopState) :
  same_config c0 (fst s) ->
  exists fuel s', crawl_loop fuel s = Some s'.
Proof.
  destruct s as [c pc]. simpl fst.
  remember (Z.to_nat (max_pages c - pc)) as n eqn:Hn.
  revert c pc Hn.
  induction n as [n IHn] using (well_founded_induction lt_wf).
  intros c. remember (length (queue c)) as len eqn:Hlen.
  revert c Hlen. induction len as [|len IHlen]; intros c Hlen pc Hn Hcfg.
  - exists O. eexists. apply crawl_loop_done.
    unfold loop_guard. simpl. destruct (queue c); [reflexivity|discriminate].
  - destruct (queue c) as [|u q] eqn:Hq; [discriminate|].
    destruct (pc <? max_pages c) eqn:Hpc.
    2:{ exists O. eexists. apply crawl_loop_done.
        unfold loop_guard. simpl. rewrite Hq. exact Hpc. }
    assert (Hg : loop_guard (c, pc) = true).
    { unfold loop_guard. simpl. rewrite Hq. exact Hpc. }
    apply Z.ltb_lt in Hpc.
    assert (Hnext : exists fuel s',
              crawl_loop fuel (loop_body (c, pc)) = Some s').
    { destruct (decide (u ∈ visited_urls c)) as [Hv | Hv].
      - rewrite (loop_body_skip _ _ c pc u q Hq Hv).
        apply IHlen; [simpl in *; congruence | exact Hn | exact Hcfg].
      - rewrite (loop_body_fetch _ _ c pc u q Hq Hv).
        destruct (scrape (fetch_kind u) u) as [r|] eqn:E.
        + destruct (try_body_counted
            (set_visited_urls ({[u]} ∪ visited_urls c) (set_queue q c))
            u pc r E) as [Hcnt _]; [eapply Hlinks; [exact Hcfg | exact E]|].
          pose proof (try_body_frame scrape_static scrape_dynamic
            (set_visited_urls ({[u]} ∪ visited_urls c) (set_queue q c)) u pc)
            as (Hc & _).
          destruct (try_body _ u pc) as [c' pc'] eqn:Et.
          simpl in Hcnt, Hc. subst pc'.
          apply (IHn (Z.to_nat (max_pages c' - (pc + 1))));
            [|reflexivity | exact (same_config_trans _ _ _ Hcfg Hc)].
          destruct Hc as (_ & _ & Hmax & _). simpl in Hmax.
          rewrite Hmax, Hn. lia.
        + rewrite (try_body_failed _ u pc E).
          apply IHlen; [simpl in *; congruence | exact Hn | exact Hcfg]. }
    destruct Hnext as (fuel & s' & Hrun).
    exists (S fuel), s'. rewrite crawl_loop_step by exact Hg. exact Hrun.
Qed.

(** When no link raises, [results] is never longer than a limit that
    is not negative, and it is shorter only if the queue ran out. *)
Lemma budget_when_links_parse (robots : RobotParser.ReadOutcome)
    (base : string) (limit : Z) (respect : bool) (fuel : nat)
    (s' : LoopState) :
  0 <= limit ->
  init robots base limit respect = Some c0 ->
  crawl_loop fuel (c0, 0) = Some s' ->
  Z.of_nat (length (results (fst s'))) <= limit
  /\ (Z.of_nat (length (results (fst s'))) < limit -> queue (fst s') = [])
  /\ (queue (fst s') <> [] -> Z.of_nat (length (results (fst s'))) = limit).
Proof.
  intros Hlim Hinit Hrun.
  assert (Hfresh : results c0 = [] /\ max_pages c0 = limit).
  { unfold init in Hinit.
    destruct (UrlParse.urlparse base EmptyString); [|discriminate].
    destruct respect.
    - destruct (UrlParse.urljoin base "/robots.txt"); [|discriminate].
      injection Hinit as <-. split; reflexivity.
    - injection Hinit as <-. split; reflexivity. }
  destruct Hfresh as [Hr0 Hm0].
  pose proof (crawl_loop_counts fuel (c0, 0) s' (same_config_refl c0) Hrun)
    as Hcnt.
  simpl in Hcnt. rewrite Hr0 in Hcnt. simpl in Hcnt.
  destruct (crawl_loop_counter _ _ _ Hrun) as [Hle _]; [simpl; lia|].
  pose proof (crawl_loop_grows _ _ _ Hrun) as ((_ & _ & Hmax & _) & _).
  simpl in Hmax. rewrite Hmax, Hm0 in Hle.
  pose proof (crawl_loop_ends _ _ _ Hrun) as Hend.
  unfold loop_guard in Hend. rewrite Hmax, Hm0 in Hend.
  assert (Hlen : Z.of_nat (length (results (fst s'))) = snd s') by lia.
  rewrite Hlen. split; [exact Hle|].
  destruct (queue (fst s')) as [|u q].
  - split; [reflexivity | congruence].
  - apply Z.ltb_ge in Hend. split; [lia | intros _; lia].
Qed.

End LinksNeverRaise.

End RunFacts.

(** ** The scenarios *)

Module ScenarioFacts.
Import PyStr PyStrFacts Scenario.

#[local] Existing Instance checks.

Lemma str_app_inv_head (s x y : string) : s +:+ x = s +:+ y -> x = y.
Proof.
  induction s as [|c s IH]; [trivial|].
  rewrite !str_app_cons. intros [= E]. apply IH, E.
Qed.

(** A string that ends with the character [c] has only suffixes that end
    with [c]. *)
Lemma app_snoc_inv (s pre suf : string) (c : ascii) :
  s +:+ String c EmptyString = pre +:+ suf ->
  suf = EmptyString \/ exists suf', suf = suf' +:+ String c EmptyString.
Proof.
  revert pre. induction s as [|e s IH]; intros pre.
  - destruct pre as [|d pre].
    + intros E. change (String c EmptyString = suf) in E. subst suf.
      right. exists EmptyString. reflexivity.
    + intros E.
      change (String c EmptyString = String d (pre +:+ suf)) in E.
      injection E as _ E.
      destruct pre; [|discriminate]. left. symmetry. exact E.
  - destruct pre as [|d pre].
    + intros E. change (String e s +:+ String c EmptyString = suf) in E.
      subst suf. right. exists (String e s). reflexivity.
    + rewrite !str_app_cons. intros [= _ E]. apply (IH pre E).
Qed.

Lemma lower_app (s t : string) : lower (s +:+ t) = lower s +:+ lower t.
Proof.
  induction s as [|c s IH]; [reflexivity|].
  rewrite str_app_cons. simpl. rewrite IH. reflexivity.
Qed.

Lemma letters_snoc (k : nat) :
  letters k +:+ "a" = letters (S k).
Proof.
  induction k as [|k IH]; [reflexivity|].
  simpl letters at 1. rewrite str_app_cons, IH. reflexivity.
Qed.

Lemma length_letters (k : nat) : String.length (letters k) = k.
Proof. induction k as [|k IH]; simpl; [reflexivity | rewrite IH; reflexivity]. Qed.

Lemma letters_inj (j k : nat) :
  endless_seed +:+ letters j = endless_seed +:+ letters k -> j = k.
Proof.
  intros E. apply str_app_inv_head in E.
  rewrite <- (length_letters j), <- (length_letters k), E. reflexivity.
Qed.

Lemma has_char_letters (c : ascii) (k : nat) :
  Ascii.eqb "a" c = false -> has_char c (letters k) = false.
Proof.
  intros Hc. induction k as [|k IH]; [reflexivity|].
  cbn [letters has_char]. rewrite Hc, IH. reflexivity.
Qed.

(** No extension of the list ends with the letter [a]. *)
Lemma no_extension_after_a (s : string) :
  has_skip_extension (s +:+ "a") = false.
Proof.
  apply not_true_iff_false. intros Hex. unfold has_skip_extension in Hex.
  apply existsb_exists in Hex. destruct Hex as [ext [Hin He]].
  rewrite lower_app in He. apply endswith_spec in He. destruct He as [pre He].
  apply app_snoc_inv in He.
  destruct He as [-> | [suf ->]]; unfold skip_extensions in Hin; simpl in Hin;
    repeat (destruct Hin as [Hin | Hin]; [try discriminate Hin|]);
    try contradiction;
    repeat (destruct suf as [|? suf];
            [discriminate Hin
            | rewrite str_app_cons in Hin; injection Hin as _ Hin]);
    destruct suf; discriminate Hin.
Qed.

Lemma no_slash_after_a (s : string) : endswith (s +:+ "a") "/" = false.
Proof.
  apply not_true_iff_false. intros He.
  apply endswith_spec in He. destruct He as [pre He].
  apply app_snoc_inv in He. destruct He as [He | [suf He]]; [discriminate|].
  destruct suf as [|? suf]; [discriminate|].
  rewrite str_app_cons in He. injection He as _ He. destruct suf; discriminate.
Qed.

(** The addresses of the endless site. *)
Lemma endless_address_normal (k : nat) (src : string) :
  normalize_url ((endless_seed +:+ letters k) +:+ "a") src
  = Some ((endless_seed +:+ letters k) +:+ "a").
Proof.
  unfold normalize_url.
  assert (Hp : startswith_any ((endless_seed +:+ letters k) +:+ "a")
                 http_prefixes = true).
  { apply http_prefixed_spec. left.
    exists ("x.com/p" +:+ letters k +:+ "a"). reflexivity. }
  rewrite Hp. simpl negb. cbv iota.
  rewrite before_no_char.
  - rewrite no_slash_after_a. reflexivity.
  - rewrite !has_char_app, has_char_letters by reflexivity. reflexivity.
Qed.

Lemma endless_address_domain (t : string) :
  exists p, UrlParse.urlparse (endless_seed +:+ t) EmptyString = Some p
            /\ UrlParse.p_netloc p = "x.com".
Proof.
  unfold UrlParse.urlparse, UrlParse.urlsplit.
  assert (Ha : UrlParse.split_authority (endless_seed +:+ t) EmptyString
               = ("http", "x.com", "/p" +:+ UrlParse.remove_unsafe t))
    by reflexivity.
  rewrite Ha.
  assert (Hok : UrlParse.netloc_ok "x.com" = true) by reflexivity.
  rewrite Hok.
  destruct (UrlParse.split_tail ("/p" +:+ UrlParse.remove_unsafe t))
    as [[p0 q0] f0].
  cbn [UrlParse.scheme UrlParse.path UrlParse.netloc UrlParse.query
         UrlParse.fragment].
  destruct (mem "http" UrlParse.uses_params && has_char ";" p0).
  - destruct (UrlParse.splitparams p0). eexists. split; reflexivity.
  - eexists. split; reflexivity.
Qed.

Lemma endless_address_accepted (c : Crawler) (k : nat) :
  base_domain c = "x.com" -> respect_robots c = false ->
  (endless_seed +:+ letters k) +:+ "a" ∉ visited_urls c ->
  should_crawl c ((endless_seed +:+ letters k) +:+ "a") = Some true.
Proof.
  intros Hd Hr Hv. unfold should_crawl.
  assert (Hp : startswith_any ((endless_seed +:+ letters k) +:+ "a")
                 http_prefixes = true).
  { apply http_prefixed_spec. left.
    exists ("x.com/p" +:+ letters k +:+ "a"). reflexivity. }
  rewrite Hp. simpl negb. cbv iota.
  rewrite bool_decide_eq_false_2 by exact Hv.
  unfold is_same_domain. rewrite str_app_assoc.
  destruct (endless_address_domain (letters k +:+ "a")) as [p [-> Hn]].
  rewrite Hn, Hd. simpl String.eqb. cbv iota.
  unfold is_allowed. rewrite Hr. simpl negb. cbv iota.
  rewrite <- str_app_assoc, no_extension_after_a. reflexivity.
Qed.

Lemma bad_link_raises (c : Crawler) :
  "http://[" ∉ visited_urls c -> should_crawl c "http://[" = None.
Proof.
  intros Hv. unfold should_crawl.
  change (startswith_any "http://[" http_prefixes) with true.
  simpl negb. cbv iota.
  rewrite bool_decide_eq_false_2 by exact Hv. reflexivity.
Qed.

(** The link loop on a page of the endless site. *)
Lemma endless_links (k : nat) (c : Crawler) :
  base_domain c = "x.com" -> respect_robots c = false ->
  (endless_seed +:+ letters k) +:+ "a" ∉ visited_urls c ->
  "http://[" ∉ visited_urls c ->
  process_links c (endless_seed +:+ letters k)
    [(endless_seed +:+ letters k) +:+ "a"; "http://["]
  = (set_queue (queue c ++ [(endless_seed +:+ letters k) +:+ "a"]) c, false).
Proof.
  intros Hd Hr Hnext Hbad. cbn [process_links].
  rewrite endless_address_normal.
  rewrite endless_address_accepted by assumption.
  change (normalize_url "http://[" (endless_seed +:+ letters k))
    with (Some "http://[").
  cbv iota. rewrite bad_link_raises by exact Hbad. reflexivity.
Qed.

(** One iteration on the endless site: the page is stored, its first
    link is queued, its second link raises, the counter stays. *)
Lemma endless_step (k : nat) (c : Crawler) :
  endless_state k c ->
  exists c', loop_body endless endless (c, 0) = (c', 0)
             /\ endless_state (S k) c'.
Proof.
  intros (Hq & Hm & Hd & Hr & Hv).
  assert (Hu : endless_seed +:+ letters k ∉ visited_urls c).
  { intros Hin. apply Hv in Hin. destruct Hin as [j [Hj E]].
    symmetry in E. apply letters_inj in E. lia. }
  assert (Hnext : (endless_seed +:+ letters k) +:+ "a"
                  ∉ {[endless_seed +:+ letters k]} ∪ visited_urls c).
  { rewrite str_app_assoc, letters_snoc.
    intros Hin. apply elem_of_union in Hin. destruct Hin as [Hin | Hin].
    - apply elem_of_singleton in Hin. apply letters_inj in Hin. lia.
    - apply Hv in Hin. destruct Hin as [j [Hj E]].
      apply letters_inj in E. lia. }
  assert (Hbad : "http://[" ∉ {[endless_seed +:+ letters k]} ∪ visited_urls c).
  { intros Hin. apply elem_of_union in Hin. destruct Hin as [Hin | Hin].
    - apply elem_of_singleton in Hin. vm_compute in Hin. discriminate Hin.
    - apply Hv in Hin. destruct Hin as [j [Hj E]].
      vm_compute in E. discriminate E. }
  rewrite (loop_body_fetch _ _ c 0 _ [] Hq Hu).
  unfold try_body.
  assert (Hs : forall u, scrape endless endless (fetch_kind u) u
                         = Some (page [u +:+ "a"; "http://["]))
    by (intros u; destruct (fetch_kind u); reflexivity).
  rewrite Hs.
  change (links_of (page [(endless_seed +:+ letters k) +:+ "a"; "http://["]))
    with [(endless_seed +:+ letters k) +:+ "a"; "http://["].
  rewrite endless_links; [| exact Hd | exact Hr | exact Hnext | exact Hbad].
  eexists. split; [reflexivity|].
  split; [|split; [exact Hm | split; [exact Hd | split; [exact Hr|]]]].
  - cbn [queue set_queue set_results set_fetch_log set_visited_urls app].
    rewrite str_app_assoc, letters_snoc. reflexivity.
  - cbn [visited_urls set_queue set_results set_fetch_log set_visited_urls].
    intros v Hin. apply elem_of_union in Hin. destruct Hin as [Hin | Hin].
    + apply elem_of_singleton in Hin. exists k. split; [lia | exact Hin].
    + apply Hv in Hin. destruct Hin as [j [Hj E]]. exists j. split; [lia | exact E].
Qed.

Lemma endless_loop (fuel k : nat) (c : Crawler) :
  endless_state k c -> crawl_loop endless endless fuel (c, 0) = None.
Proof.
  revert k c. induction fuel as [|fuel IH]; intros k c Hst.
  - destruct Hst as (Hq & Hm & _). simpl. unfold loop_guard. simpl.
    rewrite Hq, Hm. reflexivity.
  - assert (Hg : loop_guard (c, 0) = true).
    { destruct Hst as (Hq & Hm & _). unfold loop_guard. simpl.
      rewrite Hq, Hm. reflexivity. }
    rewrite crawl_loop_step by exact Hg.
    destruct (endless_step k c Hst) as [c' [-> Hst']].
    apply (IH (S k) c' Hst').
Qed.

(** C1, at the input where it fails.  With [max_pages = 1], a seed page
    whose links are ["http://x.com/b"] and ["http://["]: [urlparse]
    raises on the second link inside [should_crawl], after the record
    was appended and the first link queued, and before
    [page_count += 1]; the next page is fetched as well, and [crawl]
    returns two records. *)
Theorem budget_exceeded_after_bad_link :
  UrlParse.urlparse "http://[" EmptyString = None
  /\ option_map (fun c => (map url (results c), queue c))
       (run bad_link_site RobotParser.ReadRaised 5 "http://x.com" 1 false)
     = Some (["http://x.com"; "http://x.com/b"], [])
  /\ option_map (fun c => Z.of_nat (length (results c)) <=? max_pages c)
       (run bad_link_site RobotParser.ReadRaised 5 "http://x.com" 1 false)
     = Some false.
Proof. repeat split; vm_compute; reflexivity. Qed.

(** C8, at the input where it fails.  On a site where every page links
    to a new page and then carries the link ["http://["], the counter
    never moves and the queue never empties: no amount of fuel ends the
    loop, although [max_pages] is 1 and every page has two links. *)
Theorem endless_crawl_never_ends (fuel : nat) :
  match init RobotParser.ReadRaised endless_seed 1 false with
  | Some c => crawl endless endless fuel c = None
  | None => False
  end.
Proof.
  assert (Hinit : init RobotParser.ReadRaised endless_seed 1 false
                  = Some (mkCrawler endless_seed "x.com" 1 false ∅
                            [endless_seed] [] RobotParser.new []))
    by reflexivity.
  rewrite Hinit. unfold crawl.
  rewrite (endless_loop fuel 0); [reflexivity|].
  repeat split. intros v Hin. apply elem_of_empty in Hin. contradiction.
Qed.

(** A page that links to itself is fetched once and the loop ends. *)
Lemma self_loop_ends :
  option_map (fun c => (map url (results c), fetch_log c, queue c))
    (run self_loop RobotParser.ReadRaised 2 "http://x.com/a" 100 false)
  = Some (["http://x.com/a"], [(Static, "http://x.com/a")], []).
Proof. vm_compute. reflexivity. Qed.

End ScenarioFacts.

(** ** The seed, the robots file and the caller *)

Section SeedFacts.
Import PyStr PyStrFacts.

Context `{NetlocChecks}.
Variable scrape_static : string -> option ScrapeResult.
Variable scrape_dynamic : string -> option ScrapeResult.
Variable robots : RobotParser.ReadOutcome.

Local Abbreviation loop_body := (loop_body scrape_static scrape_dynamic).
Local Abbreviation crawl_loop := (crawl_loop scrape_static scrape_dynamic).
Local Abbreviation crawl := (crawl scrape_static scrape_dynamic).

(** What the constructor builds. *)
Lemma init_fresh (base : string) (limit : Z) (respect : bool) (c : Crawler) :
  init robots base limit respect = Some c ->
  base_url c = base /\ max_pages c = limit /\ respect_robots c = respect
  /\ queue c = [base] /\ visited_urls c = ∅ /\ results c = []
  /\ fetch_log c = []
  /\ exists p, UrlParse.urlparse base EmptyString = Some p
               /\ base_domain c = UrlParse.p_netloc p.
Proof.
  unfold init. destruct (UrlParse.urlparse base EmptyString) as [p|];
    [|discriminate].
  destruct respect.
  - destruct (UrlParse.urljoin base "/robots.txt"); [|discriminate].
    intros [= <-]. repeat split. exists p. split; reflexivity.
  - intros [= <-]. repeat split. exists p. split; reflexivity.
Qed.

(** The address of [robots.txt] can be built for every seed that
    [urlparse] accepts. *)
Lemma robots_url_defined (base : string) (p : UrlParse.ParseResult) :
  UrlParse.urlparse base EmptyString = Some p ->
  UrlParse.urljoin base "/robots.txt" <> None.
Proof.
  intros Hp. unfold UrlParse.urljoin. rewrite Hp.
  destruct (nonempty base); [|discriminate]. simpl negb. cbv iota.
  assert (Hr : exists sch prm,
            UrlParse.urlparse "/robots.txt" (UrlParse.p_scheme p)
            = Some (UrlParse.mkParse sch EmptyString "/robots.txt" prm
                      EmptyString EmptyString)).
  { unfold UrlParse.urlparse, UrlParse.urlsplit.
    change (UrlParse.split_authority "/robots.txt" (UrlParse.p_scheme p))
      with (UrlParse.remove_unsafe (UrlParse.p_scheme p), EmptyString,
            "/robots.txt").
    assert (Hok : UrlParse.netloc_ok EmptyString = true) by reflexivity.
    cbv beta iota. rewrite Hok.
    change (UrlParse.split_tail "/robots.txt")
      with ("/robots.txt", EmptyString, EmptyString).
    cbn [UrlParse.scheme UrlParse.path UrlParse.netloc UrlParse.query
           UrlParse.fragment].
    change (has_char ";" "/robots.txt") with false.
    rewrite andb_false_r. eexists _, _. reflexivity. }
  destruct Hr as (sch & prm & ->).
  repeat match goal with
         | |- (if ?b then _ else _) <> None => destruct b; [discriminate|]
         end.
  discriminate.
Qed.

(** C9.  The seed is queued, and then marked visited, as it was given.
    For a seed that starts with [http://] or [https://] and ends with a
    slash or has a fragment, [normalize_url] never returns the seed
    itself; on a site whose root page links to itself, the root is
    fetched a second time under the address without the slash. *)
Theorem seed_not_normalized (base : string) (limit : Z) (respect : bool)
    (c : Crawler) :
  init robots base limit respect = Some c ->
  queue c = [base]
  /\ visited_urls c = ∅
  /\ visited_urls (fst (loop_body (c, 0))) = {[base]}
  /\ (0 < limit ->
      forall fuel, crawl_loop (S fuel) (c, 0) = crawl_loop fuel (loop_body (c, 0)))
  /\ (startswith_any base http_prefixes = true ->
      endswith base "/" = true \/ has_char "#" base = true ->
      forall src, normalize_url base src <> Some base)
  /\ option_map (fun c' => (map url (results c'), fetch_log c'))
       (Scenario.run Scenario.slash_root RobotParser.ReadRaised 5
          "http://x.com/" 100 false)
     = Some (["http://x.com/"; "http://x.com"],
             [(Static, "http://x.com/"); (Static, "http://x.com")]).
Proof.
  intros Hinit.
  destruct (init_fresh _ _ _ _ Hinit) as (_ & Hmax & _ & Hq & Hv & _).
  split; [exact Hq|]. split; [exact Hv|]. split; [|split; [|split]].
  - rewrite (loop_body_fetch _ _ c 0 base [] Hq)
      by (rewrite Hv; apply not_elem_of_empty).
    pose proof (try_body_frame scrape_static scrape_dynamic
      (set_visited_urls ({[base]} ∪ visited_urls c) (set_queue [] c))
      base 0) as (_ & Hvis & _).
    rewrite Hvis. simpl. rewrite Hv. apply union_empty_r_L.
  - intros Hlim fuel. apply crawl_loop_step.
    unfold loop_guard. simpl. rewrite Hq, Hmax. apply Z.ltb_lt. exact Hlim.
  - intros Hp Hends src. unfold normalize_url. rewrite Hp. simpl negb. cbv iota.
    destruct (canonical_decompose base) as (slash & frag & Hd & Hs & Hf & Hn & He).
    intros [= E]. rewrite E in Hn, He.
    destruct Hends as [Hslash | Hhash]; [|congruence].
    assert (Hb : before "#" base = base).
    { apply before_no_char. exact Hn. }
    rewrite Hb, Hslash in E.
    apply endswith_spec in Hslash. destruct Hslash as [pre Hpre].
    rewrite Hpre, drop_last_snoc in E.
    apply (f_equal String.length) in E. rewrite str_length_app in E.
    simpl in E. lia.
  - vm_compute. reflexivity.
Qed.

End SeedFacts.

(** ** The robots file that cannot be read, and concrete runs *)

Module Evidence.
Import PyStr PyStrFacts Scenario.

(** C2, at the input where it fails.  With [respect_robots=True] and a
    [read()] that raises, the constructor returns (it raises only when
    [urlparse] rejects the seed itself), but the parser is left as
    [RobotFileParser()] built it, and [can_fetch] answers [False] until
    a file has been read: [is_allowed] refuses every address.  On a
    site of two pages the crawl stops after the seed, where a crawl with
    [respect_robots=False] fetches both. *)
Theorem robots_failure_denies_all :
  (forall (H : NetlocChecks) (base : string) (limit : Z) (u : string),
     match @init H RobotParser.ReadRaised base limit true with
     | Some c => is_allowed c u = Some false
     | None => UrlParse.urlparse base EmptyString = None
     end)
  /\ option_map (fun c => (map url (results c), queue c))
       (run two_pages RobotParser.ReadRaised 5 "http://x.com" 5 true)
     = Some (["http://x.com"], [])
  /\ option_map (fun c => (map url (results c), queue c))
       (run two_pages RobotParser.ReadRaised 5 "http://x.com" 5 false)
     = Some (["http://x.com"; "http://x.com/b"], []).
Proof.
  split; [|split; vm_compute; reflexivity].
  intros H base limit u. unfold init.
  destruct (UrlParse.urlparse base EmptyString) as [p|] eqn:Hp; [|reflexivity].
  destruct (UrlParse.urljoin base "/robots.txt") as [robots_url|] eqn:Hj.
  - unfold is_allowed, read_robots. simpl.
    destruct (UrlParse.urlparse robots_url EmptyString); reflexivity.
  - exfalso. exact (robots_url_defined base p Hp Hj).
Qed.

Lemma one_record_per_url_witness :
  @init checks RobotParser.ReadRaised "http://x.com" 5 false
  = Some (fresh "http://x.com" 5)
  /\ exists c',
       @crawl checks (site twice_linked) (site twice_linked) 5
         (fresh "http://x.com" 5) = Some c'
       /\ map url (results c') = ["http://x.com"; "http://x.com/b"]
       /\ List.NoDup (map url (results c')).
Proof.
  split; [reflexivity|].
  assert (Hurls :
    option_map (fun c => map url (results c))
      (@crawl checks (site twice_linked) (site twice_linked) 5
         (fresh "http://x.com" 5))
    = Some ["http://x.com"; "http://x.com/b"])
    by (vm_compute; reflexivity).
  destruct (@crawl checks (site twice_linked) (site twice_linked) 5
              (fresh "http://x.com" 5)) as [c'|] eqn:E; [|discriminate Hurls].
  exists c'. split; [reflexivity|]. split.
  - simpl in Hurls. injection Hurls as Hurls. exact Hurls.
  - exact (proj1 (@one_record_per_url checks (site twice_linked)
                    (site twice_linked) RobotParser.ReadRaised "http://x.com"
                    5 false 5 (fresh "http://x.com" 5) c' eq_refl E)).
Defined.

Lemma seed_not_normalized_witness :
  @init checks RobotParser.ReadRaised "http://x.com/" 100 false
  = Some (fresh "http://x.com/" 100)
  /\ (forall src, @normalize_url checks "http://x.com/" src
                  <> Some "http://x.com/")
  /\ @normalize_url checks "http://x.com/" "http://x.com/"
     = Some "http://x.com".
Proof.
  split; [reflexivity|]. split; [|reflexivity].
  exact (proj1 (proj2 (proj2 (proj2 (proj2
           (@seed_not_normalized checks (site slash_root) (site slash_root)
              RobotParser.ReadRaised "http://x.com/" 100 false
              (fresh "http://x.com/" 100) eq_refl)))))
           eq_refl (or_introl eq_refl)).
Defined.

Lemma dispatch_spec_witness :
  queue (fresh "http://x.com/dashboard" 5) = ["http://x.com/dashboard"]
  /\ ("http://x.com/dashboard"
      ∉ visited_urls (fresh "http://x.com/dashboard" 5))
  /\ (fetch_log (fst (@loop_body checks (site offline) (site offline)
                        (fresh "http://x.com/dashboard" 5, 0))))
     = [(Dynamic, "http://x.com/dashboard")].
Proof.
  split; [reflexivity|]. split; [apply not_elem_of_empty|].
  exact (proj1 (proj2 (proj2
           (@dispatch_spec checks (site offline) (site offline)
              (fresh "http://x.com/dashboard" 5) 0 "http://x.com/dashboard" []
              eq_refl (not_elem_of_empty _))))).
Defined.

End Evidence.

(** ** Invariants of the crawl *)

Section InvariantFacts.
Import PyStr PyStrFacts.

Context `{NetlocChecks}.
Variable scrape_static : string -> option ScrapeResult.
Variable scrape_dynamic : string -> option ScrapeResult.

Local Abbreviation scrape := (scrape scrape_static scrape_dynamic).
Local Abbreviation try_body := (try_body scrape_static scrape_dynamic).
Local Abbreviation loop_body := (loop_body scrape_static scrape_dynamic).
Local Abbreviation crawl_loop := (crawl_loop scrape_static scrape_dynamic).
Local Abbreviation crawl := (crawl scrape_static scrape_dynamic).
Local Abbreviation inv := (crawl_inv scrape_static scrape_dynamic).

Lemma in_scope_config (c c' : Crawler) (u : string) :
  same_config c c' -> in_scope c u -> in_scope c' u.
Proof.
  intros (_ & Hd & _ & Hr & Hp) (H1 & (p & Hp1 & Hp2) & H3 & H4).
  split; [exact H1|]. split; [exists p; split; [exact Hp1 | congruence]|].
  split; [|exact H4]. unfold is_allowed in *. rewrite Hr, Hp. exact H3.
Qed.

Lemma discovered_config (c c' : Crawler) (u : string) :
  same_config c c' -> discovered c u -> discovered c' u.
Proof. intros Hc [Hs Hf]. split; [eapply in_scope_config; eassumption | exact Hf]. Qed.

(** What [should_crawl] has established when it answers [True]. *)
Lemma should_crawl_accepts (c : Crawler) (u : string) :
  should_crawl c u = Some true -> in_scope c u /\ u ∉ visited_urls c.
Proof.
  unfold should_crawl, in_scope, is_same_domain.
  destruct (startswith_any u http_prefixes); [|discriminate]. simpl negb. cbv iota.
  destruct (bool_decide (u ∈ visited_urls c)) eqn:Hv; [discriminate|].
  apply bool_decide_eq_false in Hv.
  destruct (UrlParse.urlparse u EmptyString) as [p|]; [|discriminate].
  destruct (String.eqb (UrlParse.p_netloc p) (base_domain c)) eqn:Hd; [|discriminate].
  apply String.eqb_eq in Hd.
  destruct (is_allowed c u) as [[|]|]; [|discriminate|discriminate].
  destruct (has_skip_extension u); [discriminate|]. intros _.
  split; [|exact Hv]. split; [reflexivity|].
  split; [exists p; split; [reflexivity | exact Hd]|]. split; reflexivity.
Qed.

(** [normalize_url] never returns an address with a fragment. *)
Lemma normalize_url_no_fragment (l u n : string) :
  normalize_url l u = Some n -> has_char "#" n = false.
Proof.
  unfold normalize_url.
  destruct (if negb (startswith_any l http_prefixes)
            then UrlParse.urljoin u l else Some l) as [r|]; [|discriminate].
  intros [= <-]. destruct (canonical_decompose r) as (s & f & _ & _ & _ & Hn & _).
  exact Hn.
Qed.

Lemma accepted_link_discovered (c : Crawler) (u l n : string) :
  In n (accepted_link c u l) -> discovered c n /\ n ∉ visited_urls c.
Proof.
  unfold accepted_link.
  destruct (normalize_url l u) as [m|] eqn:Hn; [|intros []].
  destruct (should_crawl c m) as [[|]|] eqn:Hs; [| intros [] | intros []].
  intros [<- | []]. destruct (should_crawl_accepts c m Hs) as [Hin Hv].
  split; [|exact Hv]. split; [exact Hin|].
  exact (normalize_url_no_fragment l u m Hn).
Qed.

Lemma should_crawl_queue (q : list string) (c : Crawler) (n : string) :
  should_crawl (set_queue q c) n = should_crawl c n.
Proof. reflexivity. Qed.

Lemma accepted_link_queue (q : list string) (c : Crawler) (u l : string) :
  accepted_link (set_queue q c) u l = accepted_link c u l.
Proof. reflexivity. Qed.

(** X5.  The link loop appends, in the order of the page and once per
    occurrence, the normalised form of every link that [should_crawl]
    accepts; the test looks at [visited_urls] and never at the queue, so a
    link that occurs twice on a page is queued twice.  When a link makes
    the loop raise, the links before it have been appended and the ones
    after it are lost. *)
Theorem process_links_appends (c : Crawler) (current_url : string)
    (links : list string) :
  let out := process_links c current_url links in
  (snd out = true ->
   queue (fst out) = queue c ++ flat_map (accepted_link c current_url) links)
  /\ (snd out = false ->
      exists before l after,
        links = before ++ l :: after
        /\ queue (fst out)
           = queue c ++ flat_map (accepted_link c current_url) before
        /\ (normalize_url l current_url = None
            \/ exists n, normalize_url l current_url = Some n
                         /\ should_crawl c n = None)).
Proof.
  revert c. induction links as [|l links IH]; intros c; cbn [process_links].
  - simpl. split; [intros _; rewrite List.app_nil_r; reflexivity | discriminate].
  - cbn [flat_map]. unfold accepted_link at 1.
    destruct (normalize_url l current_url) as [n|] eqn:Hn.
    2:{ simpl. split; [discriminate|]. intros _.
        exists [], l, links. split; [reflexivity|].
        split; [simpl; rewrite List.app_nil_r; reflexivity | left; exact Hn]. }
    destruct (should_crawl c n) as [[|]|] eqn:Hs.
    + destruct (IH (set_queue (queue c ++ [n]) c)) as [Hok Hbad].
      split.
      * intros Hflag. rewrite (Hok Hflag). simpl queue.
        rewrite <- List.app_assoc. reflexivity.
      * intros Hflag. destruct (Hbad Hflag) as (before & l' & after & -> & Hq & Hr).
        exists (l :: before), l', after. split; [reflexivity|]. split.
        -- rewrite Hq. simpl queue. rewrite <- List.app_assoc.
           cbn [flat_map]. unfold accepted_link at 2. rewrite Hn, Hs.
           reflexivity.
        -- exact Hr.
    + destruct (IH c) as [Hok Hbad]. split.
      * intros Hflag. rewrite (Hok Hflag). reflexivity.
      * intros Hflag. destruct (Hbad Hflag) as (before & l' & after & -> & Hq & Hr).
        exists (l :: before), l', after. split; [reflexivity|]. split.
        -- rewrite Hq. cbn [flat_map]. unfold accepted_link at 2.
           rewrite Hn, Hs. reflexivity.
        -- exact Hr.
    + simpl. split; [discriminate|]. intros _.
      exists [], l, links. split; [reflexivity|].
      split; [simpl; rewrite List.app_nil_r; reflexivity|].
      right. exists n. split; [exact Hn | exact Hs].
Qed.

(** Whatever the link loop appends was accepted by [should_crawl]. *)
Lemma process_links_added (u : string) (links : list string) (c : Crawler) :
  exists added,
    queue (fst (process_links c u links)) = queue c ++ added
    /\ forall n, In n added -> discovered c n /\ n ∉ visited_urls c.
Proof.
  revert c. induction links as [|l links IH]; intros c; cbn [process_links].
  - exists []. split; [simpl; rewrite List.app_nil_r; reflexivity | intros n []].
  - destruct (normalize_url l u) as [n|] eqn:Hn.
    2:{ exists []. split; [simpl; rewrite List.app_nil_r; reflexivity | intros n []]. }
    destruct (should_crawl c n) as [[|]|] eqn:Hs.
    + destruct (IH (set_queue (queue c ++ [n]) c)) as (added & Hq & Hadd).
      exists (n :: added). split.
      * rewrite Hq. simpl queue. rewrite <- List.app_assoc. reflexivity.
      * intros m [<- | Hm].
        -- destruct (should_crawl_accepts c n Hs) as [Hin Hv].
           split; [|exact Hv]. split; [exact Hin|].
           exact (normalize_url_no_fragment l u n Hn).
        -- destruct (Hadd m Hm) as [Hd Hv]. split; [|exact Hv].
           eapply discovered_config; [|exact Hd]. repeat split.
    + apply IH.
    + exists []. split; [simpl; rewrite List.app_nil_r; reflexivity | intros m []].
Qed.

(** The queue after the [try] block. *)
Lemma try_body_queue (c : Crawler) (u : string) (pc : Z) :
  exists added,
    queue (fst (try_body c u pc)) = queue c ++ added
    /\ forall n, In n added -> discovered c n /\ n ∉ visited_urls c.
Proof.
  open_try_body. destruct (scrape (fetch_kind u) u) as [r|].
  - destruct (process_links_added u (links_of r)
      (set_results (results c ++ [mkPage u r])
         (set_fetch_log (fetch_log c ++ [(fetch_kind u, u)]) c)))
      as (added & Hq & Hadd).
    exists added.
    destruct (process_links _ u (links_of r)) as [c' [|]]; simpl in *;
      (split; [exact Hq|]); intros n Hn; destruct (Hadd n Hn) as [Hd Hv];
      (split; [|exact Hv]); (eapply discovered_config; [|exact Hd]); repeat split.
  - exists []. split; [simpl; rewrite List.app_nil_r; reflexivity | intros n []].
Qed.

Lemma crawl_inv_init (robots : RobotParser.ReadOutcome) (base : string)
    (limit : Z) (respect : bool) (c : Crawler) :
  init robots base limit respect = Some c -> inv c.
Proof.
  intros Hinit.
  destruct (init_fresh _ _ _ _ _ Hinit)
    as (Hb & _ & _ & Hq & Hv & Hr & Hl & _).
  unfold crawl_inv. rewrite Hq, Hv, Hr, Hl, Hb. simpl.
  split; [intros u [<- | []]; left; reflexivity|].
  split; [intros k u []|]. split; [constructor|].
  split; [intros u; split; [intros Hu; apply elem_of_empty in Hu; exact Hu | intros []]|].
  split; [constructor | intros r []].
Qed.

Lemma crawl_inv_body (c : Crawler) (pc : Z) :
  inv c -> inv (fst (loop_body (c, pc))).
Proof.
  intros Hinv.
  destruct (queue c) as [|u q] eqn:Hq.
  { assert (E : loop_body (c, pc) = (c, pc))
      by (open_loop_body; rewrite Hq; reflexivity).
    rewrite E. exact Hinv. }
  destruct Hinv as (Iq & Il & Ind & Iv & Is & Ir). rewrite Hq in Iq.
  destruct (decide (u ∈ visited_urls c)) as [Hv | Hv].
  { rewrite (loop_body_skip _ _ c pc u q Hq Hv). simpl.
    split; [|split; [exact Il | split; [exact Ind | split;
      [exact Iv | split; [exact Is | exact Ir]]]]].
    intros u' Hu'. destruct (Iq u') as [E | Hd]; [right; exact Hu' | left; exact E|].
    right. exact Hd. }
  rewrite (loop_body_fetch _ _ c pc u q Hq Hv).
  pose proof (try_body_frame scrape_static scrape_dynamic
    (set_visited_urls ({[u]} ∪ visited_urls c) (set_queue q c)) u pc)
    as (Hc & Hvis & Hlog & Hres & _ & _).
  destruct (try_body_queue
    (set_visited_urls ({[u]} ∪ visited_urls c) (set_queue q c)) u pc)
    as (added & Hqueue & Hadd).
  set (c' := fst (try_body
    (set_visited_urls ({[u]} ∪ visited_urls c) (set_queue q c)) u pc)) in *.
  simpl in Hvis, Hlog, Hres, Hqueue.
  assert (Hcfg : same_config c c') by exact Hc.
  assert (Hbase : base_url c' = base_url c) by apply Hcfg.
  assert (Hu : u = base_url c \/ discovered c u) by (apply Iq; left; reflexivity).
  assert (Hnot : ~ In u (map snd (fetch_log c))).
  { intros Hin. apply Iv in Hin. exact (Hv Hin). }
  unfold crawl_inv. rewrite Hbase, Hqueue, Hlog, Hres, Hvis.
  split; [|split; [|split; [|split; [|split]]]].
  - intros n Hn. apply in_app_or in Hn. destruct Hn as [Hn | Hn].
    + destruct (Iq n) as [E | Hd]; [right; exact Hn | left; exact E|].
      right. eapply discovered_config; [exact Hcfg | exact Hd].
    + right. destruct (Hadd n Hn) as [Hd _].
      eapply discovered_config; [exact Hc | exact Hd].
  - intros k n Hn. apply in_app_or in Hn. destruct Hn as [Hn | [[= <- <-] | []]].
    + destruct (Il k n Hn) as [Hk [E | Hd]]; split; try exact Hk;
        [left; exact E | right; eapply discovered_config; [exact Hcfg | exact Hd]].
    + split; [reflexivity|]. destruct Hu as [E | Hd]; [left; exact E|].
      right. eapply discovered_config; [exact Hcfg | exact Hd].
  - rewrite map_app. apply List.NoDup_app; [exact Ind | repeat constructor; intros []|].
    intros a Ha [<- | []]. exact (Hnot Ha).
  - intros n. rewrite map_app, in_app_iff, elem_of_union, elem_of_singleton, Iv.
    simpl. intuition congruence.
  - rewrite !map_app.
    destruct (scrape (fetch_kind u) u) as [r|]; simpl.
    + apply sublist_app; [exact Is | reflexivity].
    + rewrite List.app_nil_r. apply sublist_inserts_r. exact Is.
  - intros r Hr. apply in_app_or in Hr. destruct Hr as [Hr | Hr]; [apply Ir, Hr|].
    destruct (scrape (fetch_kind u) u) as [r0|] eqn:E; [|destruct Hr].
    destruct Hr as [<- | []]. simpl. exact E.
Qed.

Lemma crawl_inv_loop (fuel : nat) (s s' : LoopState) :
  crawl_loop fuel s = Some s' -> inv (fst s) -> inv (fst s').
Proof.
  revert s. induction fuel as [|fuel IH]; intros s; simpl;
    destruct (loop_guard s); try discriminate.
  - intros [= <-]. trivial.
  - intros Hrun Hinv. apply (IH _ Hrun). destruct s as [c pc].
    apply crawl_inv_body. exact Hinv.
  - intros [= <-]. trivial.
Qed.

(** The invariant at the end of a run that started from the constructor. *)
Lemma crawl_inv_run (robots : RobotParser.ReadOutcome) (base : string)
    (limit : Z) (respect : bool) (fuel : nat) (c0 c' : Crawler) :
  init robots base limit respect = Some c0 ->
  crawl fuel c0 = Some c' ->
  inv c' /\ same_config c0 c' /\ base_url c0 = base.
Proof.
  intros Hinit Hrun. open_crawl_in Hrun.
  destruct (crawl_loop fuel (c0, 0)) as [s'|] eqn:Hloop; [|discriminate].
  injection Hrun as <-.
  split; [exact (crawl_inv_loop _ _ _ Hloop (crawl_inv_init _ _ _ _ _ Hinit))|].
  split; [apply (crawl_loop_grows _ _ _ _ _ Hloop)|].
  apply (init_fresh _ _ _ _ _ Hinit).
Qed.

Lemma sublist_In {A : Type} (l k : list A) :
  sublist l k -> forall x, In x l -> In x k.
Proof.
  induction 1 as [|x l k _ IH|x l k _ IH]; intros y Hy.
  - destruct Hy.
  - destruct Hy as [<- | Hy]; [left; reflexivity | right; apply IH, Hy].
  - right. apply IH, Hy.
Qed.

Lemma contains_char (c : ascii) (s : string) :
  contains s (String c EmptyString) = has_char c s.
Proof.
  induction s as [|d s IH].
  - reflexivity.
  - cbn [contains has_char startswith]. rewrite IH, andb_true_r.
    rewrite (Ascii.eqb_sym c d). reflexivity.
Qed.

(** X1.  A crawl never leaves its scope: every address handed to the
    scraper has the netloc of the seed, and every such address other than
    the seed starts with [http://] or [https://], is allowed by the robots
    policy and carries none of the fourteen extensions.  The same holds of
    the address of every record. *)
Theorem crawl_stays_in_scope (robots : RobotParser.ReadOutcome)
    (base : string) (limit : Z) (respect : bool) (fuel : nat)
    (c0 c' : Crawler) :
  init robots base limit respect = Some c0 ->
  crawl fuel c0 = Some c' ->
  (forall k u, In (k, u) (fetch_log c') ->
     (exists p, UrlParse.urlparse u EmptyString = Some p
                /\ UrlParse.p_netloc p = base_domain c0)
     /\ (u <> base ->
         startswith_any u http_prefixes = true
         /\ is_allowed c0 u = Some true
         /\ has_skip_extension u = false))
  /\ (forall r, In r (results c') ->
        exists k, In (k, url r) (fetch_log c')).
Proof.
  intros Hinit Hrun.
  destruct (crawl_inv_run _ _ _ _ _ _ _ Hinit Hrun)
    as ((_ & Il & _ & _ & Is & _) & Hcfg & Hbase).
  destruct (init_fresh _ _ _ _ _ Hinit) as (_ & _ & _ & _ & _ & _ & _ & p0 & Hp0 & Hd0).
  assert (Hback : same_config c' c0).
  { destruct Hcfg as (H1 & H2 & H3 & H4 & H5). repeat split; congruence. }
  split.
  - intros k u Hin. destruct (Il k u Hin) as [_ [E | [Hs _]]].
    + assert (Eu : u = base) by (destruct Hcfg as [Hb _]; congruence).
      clear E. subst u.
      split; [exists p0; split; [exact Hp0 | symmetry; exact Hd0]|].
      intros Hne. contradiction.
    + apply (in_scope_config c' c0 u Hback) in Hs.
      destruct Hs as (H1 & H2 & H3 & H4). split; [exact H2|]. intros _.
      split; [exact H1 | split; [exact H3 | exact H4]].
  - intros r Hr. pose proof (sublist_In _ _ Is (url r) (in_map url _ _ Hr)) as Hin.
    apply in_map_iff in Hin. destruct Hin as [[k u] [Hu Hin]]. simpl in Hu. subst u.
    exists k. exact Hin.
Qed.

(** X2.  No address handed to the scraper, other than the seed, has a
    fragment: the token [#] of the dispatch can only fire for the seed.
    Every other address that went to [scrape_dynamic] contains one of
    [vue], [react], [angular], [spa], [dashboard]. *)
Theorem fragment_only_in_seed (robots : RobotParser.ReadOutcome)
    (base : string) (limit : Z) (respect : bool) (fuel : nat)
    (c0 c' : Crawler) :
  init robots base limit respect = Some c0 ->
  crawl fuel c0 = Some c' ->
  forall k u, In (k, u) (fetch_log c') -> u <> base ->
    has_char "#" u = false
    /\ (k = Dynamic ->
        exists tok pre post,
          In tok ["vue"; "react"; "angular"; "spa"; "dashboard"]
          /\ u = pre +:+ tok +:+ post).
Proof.
  intros Hinit Hrun k u Hin Hne.
  destruct (crawl_inv_run _ _ _ _ _ _ _ Hinit Hrun)
    as ((_ & Il & _) & Hcfg & Hbase).
  destruct (Il k u Hin) as [Hk [E | [_ Hf]]].
  - exfalso. apply Hne. destruct Hcfg as [Hb _]. congruence.
  - split; [exact Hf|]. intros Hdyn. subst k. unfold fetch_kind in Hdyn.
    destruct (is_likely_dynamic u) eqn:Hl; [|discriminate].
    unfold is_likely_dynamic, dynamic_tokens in Hl. cbn [existsb] in Hl.
    rewrite contains_char, Hf in Hl. simpl orb in Hl.
    assert (Hw : existsb (contains u)
                   ["vue"; "react"; "angular"; "spa"; "dashboard"] = true)
      by exact Hl.
    apply existsb_exists in Hw. destruct Hw as [tok [Htok Hc]].
    apply contains_spec in Hc. destruct Hc as (pre & post & Hu).
    exists tok, pre, post. split; [exact Htok | exact Hu].
Qed.

(** X3.  No address is handed to the scraper twice, failed fetches
    included; [visited_urls] is exactly the set of the addresses handed to
    the scraper; and the records come in the order of the calls. *)
Theorem each_url_fetched_once (robots : RobotParser.ReadOutcome)
    (base : string) (limit : Z) (respect : bool) (fuel : nat)
    (c0 c' : Crawler) :
  init robots base limit respect = Some c0 ->
  crawl fuel c0 = Some c' ->
  List.NoDup (map snd (fetch_log c'))
  /\ (forall u, u ∈ visited_urls c' <-> In u (map snd (fetch_log c')))
  /\ sublist (map url (results c')) (map snd (fetch_log c'))
  /\ (length (results c') <= length (fetch_log c'))%nat.
Proof.
  intros Hinit Hrun.
  destruct (crawl_inv_run _ _ _ _ _ _ _ Hinit Hrun)
    as ((_ & _ & Ind & Iv & Is & _) & _).
  split; [exact Ind|]. split; [exact Iv|]. split; [exact Is|].
  apply sublist_length in Is. rewrite !length_map in Is. exact Is.
Qed.

(** X4.  Every record holds, under its address, what the scraper chosen by
    the dispatch returned for that address; an address on which that
    scraper raises has no record. *)
Theorem records_are_scraper_results (robots : RobotParser.ReadOutcome)
    (base : string) (limit : Z) (respect : bool) (fuel : nat)
    (c0 c' : Crawler) :
  init robots base limit respect = Some c0 ->
  crawl fuel c0 = Some c' ->
  (forall r, In r (results c') ->
     scrape (fetch_kind (url r)) (url r) = Some (content r))
  /\ (forall u, scrape (fetch_kind u) u = None ->
        ~ In u (map url (results c'))).
Proof.
  intros Hinit Hrun.
  destruct (crawl_inv_run _ _ _ _ _ _ _ Hinit Hrun)
    as ((_ & _ & _ & _ & _ & Ir) & _).
  split; [exact Ir|].
  intros u Hnone Hin. apply in_map_iff in Hin. destruct Hin as [r [<- Hr]].
  rewrite (Ir r Hr) in Hnone. discriminate.
Qed.




(** X8.  When no link of the site makes [normalize_url] or [should_crawl]
    raise for a crawler of this configuration and [max_pages] is not
    negative, the crawl ends, with no more than [max_pages] records, and
    with fewer only if the queue ran out. *)
Theorem crawl_ends_within_budget (robots : RobotParser.ReadOutcome)
    (base : string) (limit : Z) (respect : bool) (c0 : Crawler) :
  links_never_raise scrape_static scrape_dynamic c0 ->
  0 <= limit ->
  init robots base limit respect = Some c0 ->
  exists fuel c',
    crawl fuel c0 = Some c'
    /\ Z.of_nat (length (results c')) <= limit
    /\ (Z.of_nat (length (results c')) < limit -> queue c' = []).
Proof.
  intros Hlinks Hlim Hinit.
  destruct (crawl_loop_terminates scrape_static scrape_dynamic c0 Hlinks
              (c0, 0) (same_config_refl c0))
    as (fuel & s' & Hrun).
  destruct (budget_when_links_parse scrape_static scrape_dynamic c0 Hlinks
              robots base limit respect fuel s' Hlim Hinit Hrun)
    as (Hle & Hshort & _).
  exists fuel, (fst s'). split; [|split; [exact Hle | exact Hshort]].
  open_crawl. rewrite Hrun. reflexivity.
Qed.

End InvariantFacts.

(** ** The normaliser and the links of the scraper *)

Section ScraperFacts.
Import PyStr PyStrFacts.

Context `{NetlocChecks}.

Lemma normalize_url_http (url src : string) :
  startswith_any url http_prefixes = true ->
  normalize_url url src = Some (canonical url).
Proof. intros Hp. unfold normalize_url. rewrite Hp. reflexivity. Qed.

Lemma startswith_app_l (s t p : string) :
  startswith s p = true -> startswith (s +:+ t) p = true.
Proof.
  intros Hs. apply startswith_spec in Hs. destruct Hs as [r ->].
  apply startswith_spec. exists (r +:+ t). apply str_app_assoc.
Qed.

Lemma http_prefixed_app (s t : string) :
  startswith_any s http_prefixes = true ->
  startswith_any (s +:+ t) http_prefixes = true.
Proof.
  unfold startswith_any. rewrite !existsb_exists.
  intros [p [Hin Hp]]. exists p. split; [exact Hin | apply startswith_app_l, Hp].
Qed.

Lemma before_app (c : ascii) (a b : string) :
  has_char c a = false -> before c (a +:+ b) = a +:+ before c b.
Proof.
  unfold before. induction a as [|d a IH]; intros Ha; [reflexivity|].
  cbn [has_char] in Ha. apply orb_false_iff in Ha. destruct Ha as [Hd Ha].
  rewrite !str_app_cons. cbn [partition]. rewrite Hd.
  specialize (IH Ha). destruct (partition c (a +:+ b)) as [x y].
  simpl in IH. simpl. rewrite IH. reflexivity.
Qed.

Lemma endswith_app_nonempty (a b suf : string) (c : ascii) :
  endswith (a +:+ String c b) suf = true ->
  suf = EmptyString \/ String.length suf = 1%nat ->
  endswith (String c b) suf = true.
Proof.
  intros He Hs. destruct Hs as [-> | Hs].
  - apply endswith_spec. exists (String c b). symmetry. apply str_app_nil_r.
  - destruct suf as [|d [|? ?]]; try discriminate Hs.
    apply endswith_spec in He. destruct He as [pre He].
    apply endswith_spec.
    assert (Hl : exists pre', String c b = pre' +:+ String d EmptyString).
    { clear Hs. revert pre He. induction a as [|e a IH]; intros pre He.
      - exists pre. exact He.
      - destruct pre as [|e' pre].
        + exfalso. rewrite str_app_cons in He.
          change (String e (a +:+ String c b) = String d EmptyString) in He.
          injection He as _ He. destruct a; discriminate He.
        + rewrite !str_app_cons in He. injection He as _ He. apply (IH pre He). }
    exact Hl.
Qed.

Lemma endswith_app_r (a b suf : string) :
  endswith b suf = true -> endswith (a +:+ b) suf = true.
Proof.
  intros Hb. apply endswith_spec in Hb. destruct Hb as [pre ->].
  apply endswith_spec. exists (a +:+ pre). symmetry. apply str_app_assoc.
Qed.

Lemma drop_last_app (a b : string) (c : ascii) :
  drop_last (a +:+ String c b) = a +:+ drop_last (String c b).
Proof.
  induction a as [|d a IH]; [reflexivity|].
  rewrite !str_app_cons.
  change (drop_last (String d (a +:+ String c b)))
    with (match a +:+ String c b with
          | EmptyString => EmptyString
          | String _ _ => String d (drop_last (a +:+ String c b))
          end).
  rewrite IH. destruct a; reflexivity.
Qed.

Lemma drop_slash_app (a b : string) (c : ascii) :
  drop_slash (a +:+ String c b) = a +:+ drop_slash (String c b).
Proof.
  unfold drop_slash.
  destruct (endswith (String c b) "/") eqn:Eb.
  - rewrite (endswith_app_r a _ _ Eb). apply drop_last_app.
  - destruct (endswith (a +:+ String c b) "/") eqn:Ea; [|reflexivity].
    apply endswith_app_nonempty in Ea; [congruence | right; reflexivity].
Qed.

Lemma drop_slash_spec (s : string) :
  (endswith s "/" = true /\ s = drop_slash s +:+ "/")
  \/ (endswith s "/" = false /\ drop_slash s = s).
Proof.
  unfold drop_slash. destruct (endswith s "/") eqn:E.
  - left. split; [reflexivity|]. apply endswith_spec in E.
    destruct E as [pre ->]. rewrite drop_last_snoc. reflexivity.
  - right. split; reflexivity.
Qed.

(** X9.  An address that starts with [http://] or [https://] is left
    unchanged by [normalize_url] exactly when it has no fragment and does
    not end with a slash.  Only one slash is removed, so the result need
    not be such a fixed point: an address that ends with two slashes
    loses one at each pass. *)
Theorem normalize_url_fixed_points (url src : string) :
  startswith_any url http_prefixes = true ->
  (normalize_url url src = Some url
   <-> has_char "#" url = false /\ endswith url "/" = false)
  /\ (has_char "#" url = false ->
      normalize_url (url +:+ "//") src = Some (url +:+ "/")
      /\ normalize_url (url +:+ "/") src = Some url).
Proof.
  intros Hp. split.
  - rewrite (normalize_url_http url src Hp). unfold canonical. split.
    + intros [= E].
      destruct (before_spec "#" url) as [Hb Hcases].
      destruct (drop_slash_spec (before "#" url)) as [[_ Hs] | [He Hs]].
      * exfalso. rewrite E in Hs.
        destruct Hcases as [[Hbu _] | [a Ha]].
        -- rewrite Hbu in Hs. apply (f_equal String.length) in Hs.
           rewrite str_length_app in Hs. simpl in Hs. lia.
        -- rewrite Hs in Ha. apply (f_equal String.length) in Ha.
           rewrite !str_length_app in Ha. simpl in Ha. lia.
      * rewrite Hs in E. rewrite E in Hb, He. split; assumption.
    + intros [Hf He]. rewrite (before_no_char _ _ Hf).
      unfold drop_slash. rewrite He. reflexivity.
  - intros Hf. split.
    + rewrite normalize_url_http by (apply http_prefixed_app, Hp).
      unfold canonical. rewrite before_no_char
        by (rewrite has_char_app, Hf; reflexivity).
      change (url +:+ "//") with (url +:+ String "/" "/").
      rewrite drop_slash_app. f_equal.
    + rewrite normalize_url_http by (apply http_prefixed_app, Hp).
      unfold canonical. rewrite before_no_char
        by (rewrite has_char_app, Hf; reflexivity).
      rewrite drop_slash_app. change (drop_slash "/") with EmptyString.
      rewrite str_app_nil_r. reflexivity.
Qed.

Lemma has_char_drop_slash (c : ascii) (s : string) :
  has_char c s = false -> has_char c (drop_slash s) = false.
Proof.
  intros Hs. destruct (drop_slash_spec s) as [[_ E] | [_ E]].
  - rewrite E, has_char_app in Hs. apply orb_false_iff in Hs. tauto.
  - rewrite E. exact Hs.
Qed.

Lemma absolutize_root_relative (url r : string) :
  Scraper.absolutize url (String "/" r) = drop_slash url +:+ String "/" r.
Proof.
  unfold Scraper.absolutize.
  change (startswith (String "/" r) "/") with true. cbv iota.
  destruct (drop_slash_spec url) as [[He E] | [He E]]; rewrite He.
  - rewrite E at 1. rewrite str_app_assoc. reflexivity.
  - rewrite E. reflexivity.
Qed.

(** X10.  [extract_structured_data] leaves a reference alone unless it
    starts with a slash, and then appends it to the address of the page
    (less one final slash), not to the root of the site.  For a page with
    an [http://] or [https://] address without fragment, the address that
    the crawler derives from such a link is therefore the address of the
    page followed by the canonical form of the reference: every
    root-relative link leads below the page it stands on, and a link to
    ["/"] leads back to the page itself. *)
Theorem root_relative_links_stay_under_page (url ref src : string) :
  (startswith ref "/" = false -> Scraper.absolutize url ref = ref)
  /\ (startswith ref "/" = true ->
      Scraper.absolutize url ref = drop_slash url +:+ ref
      /\ (startswith_any url http_prefixes = true ->
          has_char "#" url = false ->
          normalize_url (Scraper.absolutize url ref) src
          = Some (drop_slash url +:+ canonical ref)
          /\ normalize_url (Scraper.absolutize url "/") src
             = Some (drop_slash url))).
Proof.
  split.
  - intros Hr. unfold Scraper.absolutize. rewrite Hr. reflexivity.
  - intros Hr. apply startswith_spec in Hr. destruct Hr as [r ->].
    change ("/" +:+ r) with (String "/" r).
    split; [apply absolutize_root_relative|].
    intros Hp Hf.
    assert (Hnorm : forall t,
      normalize_url (Scraper.absolutize url (String "/" t)) src
      = Some (drop_slash url +:+ canonical (String "/" t))).
    { intros t.
      assert (Hpre : startswith_any (Scraper.absolutize url (String "/" t))
                       http_prefixes = true).
      { unfold Scraper.absolutize.
        change (startswith (String "/" t) "/") with true. cbv iota.
        destruct (endswith url "/"); apply http_prefixed_app, Hp. }
      rewrite (normalize_url_http _ src Hpre).
      rewrite absolutize_root_relative. unfold canonical.
      rewrite before_app by (apply has_char_drop_slash, Hf).
      assert (Hb : before "#" (String "/" t) = String "/" (before "#" t)).
      { unfold before. cbn [partition].
        change (Ascii.eqb "/" "#") with false. cbv iota.
        destruct (partition "#" t). reflexivity. }
      rewrite Hb, drop_slash_app. reflexivity. }
    split; [apply Hnorm|].
    rewrite (Hnorm EmptyString).
    change (canonical "/") with EmptyString. rewrite str_app_nil_r. reflexivity.
Qed.

(** X11.  With the scraper of [scraper.py] behind the crawler, a record
    under an address that went to [scrape_static] comes from a response
    whose status is outside 400..599, and a record under an address that
    went to [scrape_dynamic] from a page that the browser rendered, whose
    status plays no part; in both cases the record holds the cleaned text
    and the converted links of that document. *)
Theorem records_by_scraper (get : string -> option Scraper.Response)
    (render : string -> option Scraper.Rendered)
    (robots : RobotParser.ReadOutcome) (base : string) (limit : Z)
    (respect : bool) (fuel : nat) (c0 c' : Crawler) :
  init robots base limit respect = Some c0 ->
  crawl (Scraper.scrape_static get) (Scraper.scrape_dynamic render) fuel c0
  = Some c' ->
  forall r, In r (results c') ->
    if is_likely_dynamic (url r)
    then exists page,
           render (url r) = Some page
           /\ content r
              = mkScrape (Scraper.clean_text (Scraper.rendered_text page))
                  (Some (mkSD (Some (Scraper.extract_links
                                       (Scraper.rendered_anchors page) (url r)))))
    else exists response,
           get (url r) = Some response
           /\ ~ (400 <= Scraper.status_code response < 600)
           /\ content r
              = mkScrape (Scraper.clean_text (Scraper.page_text response))
                  (Some (mkSD (Some (Scraper.extract_links
                                       (Scraper.anchors response) (url r))))).
Proof.
  intros Hinit Hrun r Hr.
  destruct (crawl_inv_run _ _ _ _ _ _ _ _ _ Hinit Hrun)
    as ((_ & _ & _ & _ & _ & Ir) & _).
  specialize (Ir r Hr). unfold fetch_kind in Ir.
  destruct (is_likely_dynamic (url r)); simpl in Ir.
  - unfold Scraper.scrape_dynamic in Ir.
    destruct (render (url r)) as [page|]; [|discriminate].
    exists page. split; [reflexivity|]. injection Ir as <-. reflexivity.
  - unfold Scraper.scrape_static in Ir.
    destruct (get (url r)) as [response|]; [|discriminate].
    destruct (Scraper.raises_for_status (Scraper.status_code response)) eqn:Es;
      [discriminate|].
    exists response. split; [reflexivity|]. split.
    + unfold Scraper.raises_for_status in Es.
      apply andb_false_iff in Es. intros [H1 H2].
      destruct Es as [Es | Es]; [apply Z.leb_gt in Es | apply Z.ltb_ge in Es]; lia.
    + injection Ir as <-. reflexivity.
Qed.

End ScraperFacts.

(** ** The cleaning of the text *)

Module CleanTextFacts.
Import PyStr PyStrFacts Scraper Tidy.

Lemma no_double_cons (c d : ascii) (s : string) :
  no_double (String c (String d s))
  = negb (Ascii.eqb c " " && Ascii.eqb d " ") && no_double (String d s).
Proof. reflexivity. Qed.

Lemma last_ok_cons (c d : ascii) (s : string) :
  last_ok (String c (String d s)) = last_ok (String d s).
Proof. reflexivity. Qed.

Lemma no_double_tail (c : ascii) (s : string) :
  no_double (String c s) = true -> no_double s = true.
Proof.
  destruct s as [|d s]; [reflexivity|]. rewrite no_double_cons.
  intros Hn. apply andb_true_iff in Hn. tauto.
Qed.

(** [contains _ "  "] and [no_double] say the same. *)
Lemma contains_double (s : string) :
  contains s "  " = negb (no_double s).
Proof.
  induction s as [|c s IH]; [reflexivity|].
  destruct s as [|d s].
  - cbn [contains startswith no_double]. rewrite andb_false_r. reflexivity.
  - rewrite no_double_cons.
    change (contains (String c (String d s)) "  ")
      with (Ascii.eqb " " c && (Ascii.eqb " " d && true)
            || contains (String d s) "  ").
    rewrite IH, andb_true_r, negb_andb, negb_involutive.
    rewrite (Ascii.eqb_sym " " c), (Ascii.eqb_sym " " d). reflexivity.
Qed.

Lemma space_is_space : is_space " " = true.
Proof. reflexivity. Qed.

Lemma not_space_not_blank (c : ascii) :
  is_space c = false -> Ascii.eqb c " " = false.
Proof.
  intros Hc. destruct (Ascii.eqb c " ") eqn:E; [|reflexivity].
  apply Ascii.eqb_eq in E. subst c. discriminate Hc.
Qed.

(** *** [lstrip], [rstrip], [strip] *)

Lemma lstrip_head_ok (s : string) : head_ok (lstrip s) = true.
Proof.
  induction s as [|c s IH]; [reflexivity|]. cbn [lstrip].
  destruct (is_space c) eqn:E; [exact IH|]. simpl. rewrite E. reflexivity.
Qed.

Lemma lstrip_fixed (s : string) : head_ok s = true -> lstrip s = s.
Proof.
  destruct s as [|c s]; [reflexivity|]. simpl. intros Hc.
  apply negb_true_iff in Hc. rewrite Hc. reflexivity.
Qed.

Lemma lstrip_all_chars (p : ascii -> bool) (s : string) :
  all_chars p s = true -> all_chars p (lstrip s) = true.
Proof.
  induction s as [|c s IH]; [reflexivity|]. intros Hs. cbn [lstrip].
  destruct (is_space c); [|exact Hs].
  cbn [all_chars] in Hs. apply andb_true_iff in Hs. apply IH. tauto.
Qed.

Lemma lstrip_no_double (s : string) :
  no_double s = true -> no_double (lstrip s) = true.
Proof.
  induction s as [|c s IH]; [reflexivity|]. intros Hs. cbn [lstrip].
  destruct (is_space c); [|exact Hs]. apply IH. eapply no_double_tail, Hs.
Qed.

Lemma rstrip_cons (c : ascii) (s : string) :
  rstrip (String c s)
  = match rstrip s with
    | EmptyString => if is_space c then EmptyString else String c EmptyString
    | String d r => String c (String d r)
    end.
Proof. cbn [rstrip]. destruct (rstrip s); reflexivity. Qed.

(** The first character of [rstrip s], when there is one, is that of
    [s]. *)
Lemma rstrip_head (s : string) (d : ascii) (r : string) :
  rstrip s = String d r -> exists s', s = String d s'.
Proof.
  destruct s as [|c s]; [discriminate|]. rewrite rstrip_cons.
  destruct (rstrip s) as [|e r'].
  - destruct (is_space c); [discriminate|]. intros [= <- _]. eexists. reflexivity.
  - intros [= <- _]. eexists. reflexivity.
Qed.

Lemma rstrip_last_ok (s : string) : last_ok (rstrip s) = true.
Proof.
  induction s as [|c s IH]; [reflexivity|]. rewrite rstrip_cons.
  destruct (rstrip s) as [|d r].
  - destruct (is_space c) eqn:E; [reflexivity|]. simpl. rewrite E. reflexivity.
  - rewrite last_ok_cons. exact IH.
Qed.

Lemma rstrip_fixed (s : string) : last_ok s = true -> rstrip s = s.
Proof.
  induction s as [|c s IH]; [reflexivity|]. intros Hs. rewrite rstrip_cons.
  destruct s as [|d s].
  - simpl in *. apply negb_true_iff in Hs. rewrite Hs. reflexivity.
  - rewrite last_ok_cons in Hs. rewrite (IH Hs). reflexivity.
Qed.

Lemma rstrip_head_ok (s : string) : head_ok s = true -> head_ok (rstrip s) = true.
Proof.
  destruct s as [|c s]; [reflexivity|]. intros Hc. rewrite rstrip_cons.
  simpl in Hc. destruct (rstrip s).
  - apply negb_true_iff in Hc. rewrite Hc. simpl. rewrite Hc. reflexivity.
  - exact Hc.
Qed.

Lemma rstrip_all_chars (p : ascii -> bool) (s : string) :
  all_chars p s = true -> all_chars p (rstrip s) = true.
Proof.
  induction s as [|c s IH]; [reflexivity|]. intros Hs.
  cbn [all_chars] in Hs. apply andb_true_iff in Hs. destruct Hs as [Hc Hs].
  rewrite rstrip_cons. specialize (IH Hs). destruct (rstrip s) as [|d r].
  - destruct (is_space c); [reflexivity|]. simpl. rewrite Hc. reflexivity.
  - cbn [all_chars] in *. rewrite Hc. exact IH.
Qed.

Lemma rstrip_no_double (s : string) :
  no_double s = true -> no_double (rstrip s) = true.
Proof.
  induction s as [|c s IH]; [reflexivity|]. intros Hs.
  rewrite rstrip_cons. pose proof (no_double_tail _ _ Hs) as Ht.
  specialize (IH Ht). destruct (rstrip s) as [|d r] eqn:E.
  - destruct (is_space c); reflexivity.
  - destruct (rstrip_head s d r E) as [s' ->].
    rewrite no_double_cons in Hs. apply andb_true_iff in Hs.
    rewrite no_double_cons. apply andb_true_iff. split; [tauto | exact IH].
Qed.

Lemma strip_fixed (s : string) :
  head_ok s = true -> last_ok s = true -> strip s = s.
Proof.
  intros Hh Hl. unfold strip. rewrite (lstrip_fixed s Hh). apply rstrip_fixed, Hl.
Qed.

Lemma strip_shape (s : string) :
  head_ok (strip s) = true /\ last_ok (strip s) = true.
Proof.
  unfold strip. split; [apply rstrip_head_ok, lstrip_head_ok | apply rstrip_last_ok].
Qed.

Lemma strip_all_chars (p : ascii -> bool) (s : string) :
  all_chars p s = true -> all_chars p (strip s) = true.
Proof. intros Hs. apply rstrip_all_chars, lstrip_all_chars, Hs. Qed.

Lemma strip_no_double (s : string) :
  no_double s = true -> no_double (strip s) = true.
Proof. intros Hs. apply rstrip_no_double, lstrip_no_double, Hs. Qed.

(** *** Induction two characters at a time *)

Lemma string_pair_ind (P : string -> Prop) :
  P EmptyString ->
  (forall c, P (String c EmptyString)) ->
  (forall c d s, P s -> P (String d s) -> P (String c (String d s))) ->
  forall s, P s.
Proof.
  intros H0 H1 H2 s.
  assert (Hboth : P s /\ forall c, P (String c s)).
  { induction s as [|d s [IH1 IH2]].
    - split; [exact H0 | exact H1].
    - split; [apply IH2|]. intros c. apply H2; [exact IH1 | apply IH2]. }
  apply Hboth.
Qed.

(** *** [split("  ")] *)

Lemma split_spaces_pair (c d : ascii) (s : string) :
  split_spaces (String c (String d s))
  = if Ascii.eqb c " " && Ascii.eqb d " "
    then EmptyString :: split_spaces s
    else push c (split_spaces (String d s)).
Proof. reflexivity. Qed.

(** The first piece is empty or starts like the string. *)
Lemma split_spaces_head (s : string) :
  exists h t,
    split_spaces s = h :: t
    /\ (h = EmptyString \/ exists e s' h', s = String e s' /\ h = String e h').
Proof.
  induction s as [| c | c d s _ IH] using string_pair_ind.
  - exists EmptyString, []. split; [reflexivity | left; reflexivity].
  - exists (String c EmptyString), []. split; [reflexivity|].
    right. exists c, EmptyString, EmptyString. split; reflexivity.
  - rewrite split_spaces_pair.
    destruct (Ascii.eqb c " " && Ascii.eqb d " ").
    + eexists _, _. split; [reflexivity | left; reflexivity].
    + destruct IH as (h & t & -> & _). exists (String c h), t.
      split; [reflexivity|]. right. exists c, (String d s), h. split; reflexivity.
Qed.

Lemma split_spaces_no_double (s : string) :
  Forall (fun x => no_double x = true) (split_spaces s).
Proof.
  induction s as [| c | c d s IH1 IH2] using string_pair_ind.
  - repeat constructor.
  - repeat constructor.
  - rewrite split_spaces_pair.
    destruct (Ascii.eqb c " " && Ascii.eqb d " ") eqn:E.
    + constructor; [reflexivity | exact IH1].
    + destruct (split_spaces_head (String d s)) as (h & t & Hs & Hh).
      rewrite Hs in *. simpl push. inversion IH2 as [|? ? Hnh Hnt]; subst.
      constructor; [|exact Hnt].
      destruct Hh as [-> | (e & s' & h' & [= <- <-] & ->)]; [reflexivity|].
      rewrite no_double_cons, E, Hnh. reflexivity.
Qed.

Lemma split_spaces_all_chars (p : ascii -> bool) (s : string) :
  all_chars p s = true ->
  Forall (fun x => all_chars p x = true) (split_spaces s).
Proof.
  induction s as [| c | c d s IH1 IH2] using string_pair_ind; intros Hs.
  - repeat constructor.
  - repeat constructor. exact Hs.
  - rewrite split_spaces_pair.
    cbn [all_chars] in Hs. apply andb_true_iff in Hs. destruct Hs as [Hc Hs].
    specialize (IH2 Hs).
    apply andb_true_iff in Hs. destruct Hs as [Hd Hs]. specialize (IH1 Hs).
    destruct (Ascii.eqb c " " && Ascii.eqb d " ").
    + constructor; [reflexivity | exact IH1].
    + destruct (split_spaces (String d s)) as [|h t].
      * repeat constructor. simpl. rewrite Hc. reflexivity.
      * inversion IH2 as [|? ? Hh Ht]; subst. constructor; [|exact Ht].
        simpl. rewrite Hc. exact Hh.
Qed.

Lemma split_spaces_fixed (s : string) :
  no_double s = true -> split_spaces s = [s].
Proof.
  induction s as [| c | c d s _ IH] using string_pair_ind; intros Hs.
  - reflexivity.
  - reflexivity.
  - rewrite no_double_cons in Hs. apply andb_true_iff in Hs. destruct Hs as [E Hs].
    apply negb_true_iff in E. rewrite split_spaces_pair, E, (IH Hs). reflexivity.
Qed.

(** *** [splitlines] *)

Lemma cut_lines_pair (c d : ascii) (s : string) :
  cut_lines (String c (String d s))
  = if is_linebreak c then
      if (nat_of_ascii c =? 13)%nat && (nat_of_ascii d =? 10)%nat
      then EmptyString :: cut_lines s
      else EmptyString :: cut_lines (String d s)
    else push c (cut_lines (String d s)).
Proof. reflexivity. Qed.

Lemma push_no_linebreak (c : ascii) (l : list string) :
  is_linebreak c = false ->
  Forall (fun x => no_linebreak x = true) l ->
  Forall (fun x => no_linebreak x = true) (push c l).
Proof.
  intros Hc Hl. destruct l as [|h t]; simpl.
  - repeat constructor. unfold no_linebreak. simpl. rewrite Hc. reflexivity.
  - inversion Hl as [|? ? Hh Ht]; subst. constructor; [|exact Ht].
    unfold no_linebreak in *. simpl. rewrite Hc. exact Hh.
Qed.

Lemma cut_lines_no_linebreak (s : string) :
  Forall (fun x => no_linebreak x = true) (cut_lines s).
Proof.
  induction s as [| c | c d s IH1 IH2] using string_pair_ind.
  - repeat constructor.
  - cbn [cut_lines]. destruct (is_linebreak c) eqn:E.
    + repeat constructor.
    + apply push_no_linebreak; [exact E | repeat constructor].
  - rewrite cut_lines_pair. destruct (is_linebreak c) eqn:E.
    + destruct ((nat_of_ascii c =? 13)%nat && (nat_of_ascii d =? 10)%nat);
        (constructor; [reflexivity | assumption]).
    + apply push_no_linebreak; assumption.
Qed.

Lemma Forall_removelast {A : Type} (P : A -> Prop) (l : list A) :
  Forall P l -> Forall P (removelast l).
Proof.
  induction 1 as [|x l Hx Hl IH]; [constructor|].
  simpl. destruct l; [constructor | constructor; assumption].
Qed.

Lemma splitlines_no_linebreak (s : string) :
  Forall (fun x => no_linebreak x = true) (splitlines s).
Proof.
  unfold splitlines. destruct (nonempty (List.last (cut_lines s) EmptyString)).
  - apply cut_lines_no_linebreak.
  - apply Forall_removelast, cut_lines_no_linebreak.
Qed.

Lemma cut_lines_fixed (s : string) :
  no_linebreak s = true -> cut_lines s = [s].
Proof.
  unfold no_linebreak. induction s as [|c s IH]; [reflexivity|].
  intros Hs. cbn [all_chars] in Hs. apply andb_true_iff in Hs.
  destruct Hs as [Hc Hs]. apply negb_true_iff in Hc.
  cbn [cut_lines]. rewrite Hc, (IH Hs). reflexivity.
Qed.

(** *** [' '.join] *)

Lemma all_chars_app (p : ascii -> bool) (a b : string) :
  all_chars p (a +:+ b) = all_chars p a && all_chars p b.
Proof.
  induction a as [|c a IH]; [reflexivity|].
  rewrite str_app_cons. cbn [all_chars]. rewrite IH, andb_assoc. reflexivity.
Qed.

Lemma last_ok_app (a : string) (c : ascii) (b : string) :
  last_ok (a +:+ String c b) = last_ok (String c b).
Proof.
  induction a as [|d a IH]; [reflexivity|].
  rewrite str_app_cons. destruct a as [|e a].
  - reflexivity.
  - rewrite str_app_cons, last_ok_cons, <- str_app_cons. exact IH.
Qed.

Lemma no_double_app (a b : string) :
  nonempty a = true -> last_ok a = true -> no_double a = true ->
  no_double b = true -> no_double (a +:+ b) = true.
Proof.
  intros Ha. induction a as [|c a IH]; [discriminate|]. intros Hl Hn Hb.
  destruct a as [|d a].
  - change (String c EmptyString +:+ b) with (String c b).
    destruct b as [|e b]; [reflexivity|]. rewrite no_double_cons, Hb.
    simpl in Hl. apply negb_true_iff in Hl.
    rewrite (not_space_not_blank c Hl). reflexivity.
  - rewrite !str_app_cons. rewrite no_double_cons in Hn.
    apply andb_true_iff in Hn. destruct Hn as [E Hn].
    rewrite no_double_cons, E, <- str_app_cons.
    rewrite last_ok_cons in Hl. rewrite (IH eq_refl Hl Hn Hb). reflexivity.
Qed.

Lemma join_chunks (l : list string) :
  Forall chunk_ok l ->
  match l with
  | [] => join " " l = EmptyString
  | _ :: _ => chunk_ok (join " " l)
  end.
Proof.
  induction 1 as [|x l Hx Hl IH]; [reflexivity|].
  destruct l as [|y l]; [exact Hx|].
  change (join " " (x :: y :: l)) with (x +:+ " " +:+ join " " (y :: l)).
  destruct Hx as (Hx1 & Hx2 & Hx3 & Hx4 & Hx5).
  destruct IH as (Hj1 & Hj2 & Hj3 & Hj4 & Hj5).
  destruct x as [|c x]; [discriminate|].
  destruct (join " " (y :: l)) as [|e j] eqn:Ej; [discriminate|].
  change (" " +:+ String e j) with (String " " (String e j)).
  repeat split.
  - exact Hx2.
  - rewrite last_ok_app, last_ok_cons. exact Hj3.
  - apply no_double_app; try assumption.
    rewrite no_double_cons, Hj4. simpl in Hj2. apply negb_true_iff in Hj2.
    rewrite (not_space_not_blank e Hj2), andb_false_r. reflexivity.
  - unfold no_linebreak in *. rewrite all_chars_app, Hx5.
    cbn [all_chars] in *. rewrite Hj5. reflexivity.
Qed.

(** *** The cleaned text *)

Lemma clean_chunks (text : string) :
  Forall chunk_ok
    (filter nonempty
       (map strip (flat_map split_spaces (map strip (splitlines text))))).
Proof.
  apply List.Forall_forall. intros x Hx. apply list_elem_of_In in Hx.
  apply list_elem_of_filter in Hx. destruct Hx as [Hne Hx].
  apply Is_true_true in Hne. apply list_elem_of_In in Hx.
  apply in_map_iff in Hx. destruct Hx as [piece [<- Hp]].
  apply in_flat_map in Hp. destruct Hp as [line [Hline Hp]].
  apply in_map_iff in Hline. destruct Hline as [raw [<- Hraw]].
  pose proof (splitlines_no_linebreak text) as Hlb.
  rewrite List.Forall_forall in Hlb. specialize (Hlb raw Hraw). simpl in Hlb.
  assert (Hl2 : no_linebreak (strip raw) = true)
    by (apply strip_all_chars, Hlb).
  pose proof (split_spaces_all_chars _ _ Hl2) as Hpl.
  rewrite List.Forall_forall in Hpl. specialize (Hpl piece Hp). simpl in Hpl.
  pose proof (split_spaces_no_double (strip raw)) as Hpd.
  rewrite List.Forall_forall in Hpd. specialize (Hpd piece Hp). simpl in Hpd.
  destruct (strip_shape piece) as [Hh Hl].
  split; [exact Hne|]. split; [exact Hh|]. split; [exact Hl|].
  split; [apply strip_no_double, Hpd | apply strip_all_chars, Hpl].
Qed.

Lemma clean_text_fixed (s : string) : chunk_ok s -> clean_text s = s.
Proof.
  intros (H1 & H2 & H3 & H4 & H5). unfold clean_text, splitlines.
  rewrite (cut_lines_fixed s H5). cbn [List.last]. rewrite H1.
  cbn [map flat_map]. rewrite (strip_fixed s H2 H3), (split_spaces_fixed s H4).
  cbn [app map]. rewrite (strip_fixed s H2 H3).
  rewrite filter_cons_True by (apply Is_true_true, H1). reflexivity.
Qed.

(** X12.  The text that the scraper returns has no two spaces in a row, no
    line boundary, no white space at either end, and cleaning it again
    changes nothing. *)
Theorem clean_text_tidy (text : string) :
  let out := clean_text text in
  contains out "  " = false
  /\ all_chars (fun c => negb (is_linebreak c)) out = true
  /\ strip out = out
  /\ clean_text out = out.
Proof.
  intros out. subst out.
  pose proof (join_chunks _ (clean_chunks text)) as Hj.
  change (join " " (filter nonempty
            (map strip (flat_map split_spaces (map strip (splitlines text))))))
    with (clean_text text) in Hj.
  destruct (filter nonempty
              (map strip (flat_map split_spaces (map strip (splitlines text)))))
    as [|x l].
  - rewrite Hj. repeat split.
  - destruct Hj as (H1 & H2 & H3 & H4 & H5).
    split; [rewrite contains_double, H4; reflexivity|].
    split; [exact H5|]. split; [apply strip_fixed; assumption|].
    apply clean_text_fixed. repeat split; assumption.
Qed.

End CleanTextFacts.

(** ** The crawl with its [print] calls *)

Section ConsoleFacts.
Import PyStr PyStrFacts.

Context `{NetlocChecks}.
Variable scrape_static : string -> option ScrapeResult.
Variable scrape_dynamic : string -> option ScrapeResult.
Variable robots : RobotParser.ReadOutcome.
Variable stdout : Console.Message -> bool.

Local Abbreviation scrape := (scrape scrape_static scrape_dynamic).
Local Abbreviation try_body := (try_body scrape_static scrape_dynamic).
Local Abbreviation loop_body := (loop_body scrape_static scrape_dynamic).
Local Abbreviation crawl_loop := (crawl_loop scrape_static scrape_dynamic).
Local Abbreviation crawl := (crawl scrape_static scrape_dynamic).
Local Abbreviation console_try_body :=
  (Console.try_body scrape_static scrape_dynamic stdout).
Local Abbreviation console_loop_body :=
  (Console.loop_body scrape_static scrape_dynamic stdout).
Local Abbreviation console_crawl_loop :=
  (Console.crawl_loop scrape_static scrape_dynamic stdout).
Local Abbreviation console_crawl :=
  (Console.crawl scrape_static scrape_dynamic stdout).
Local Abbreviation console_scrape_website :=
  (Console.scrape_website scrape_static scrape_dynamic robots stdout).
Local Abbreviation console_log :=
  (Console.scrape_website_log scrape_static scrape_dynamic robots stdout).

(** Whether or not the error line can be printed, the [try] statement
    leaves the state that [try_body] computes. *)
Lemma console_try_body_state (c : Crawler) (u : string) (pc : Z) :
  Console.state (console_try_body c u pc) = try_body c u pc.
Proof.
  unfold Console.try_body, Console.handler. open_try_body.
  destruct (scrape (fetch_kind u) u) as [r|].
  - destruct (process_links _ u (links_of r)) as [c' [|]]; [reflexivity|].
    destruct (stdout (Console.ErrorCrawling u)); reflexivity.
  - destruct (stdout (Console.ErrorCrawling u)); reflexivity.
Qed.

Lemma console_try_body_returned (c : Crawler) (u : string) (pc : Z)
    (s' : LoopState) :
  console_try_body c u pc = Console.Returned s' -> s' = try_body c u pc.
Proof.
  intros E. rewrite <- console_try_body_state, E. reflexivity.
Qed.

Lemma console_try_body_failed (c : Crawler) (u : string) (pc : Z) :
  scrape (fetch_kind u) u = None ->
  console_try_body c u pc
  = Console.handler stdout
      (set_fetch_log (fetch_log c ++ [(fetch_kind u, u)]) c) u pc.
Proof. intros E. unfold Console.try_body. rewrite E. reflexivity. Qed.

Lemma console_loop_body_skip (c : Crawler) (pc : Z) (u : string)
    (q : list string) :
  queue c = u :: q -> u ∈ visited_urls c ->
  console_loop_body (c, pc) = Console.Returned (set_queue q c, pc).
Proof.
  intros Hq Hv. unfold Console.loop_body. rewrite Hq. simpl.
  rewrite bool_decide_eq_true_2 by exact Hv. reflexivity.
Qed.

Lemma console_loop_body_fetch (c : Crawler) (pc : Z) (u : string)
    (q : list string) :
  queue c = u :: q -> u ∉ visited_urls c ->
  console_loop_body (c, pc)
  = if stdout (Console.Crawling u (pc + 1) (max_pages c))
    then console_try_body
           (set_visited_urls ({[u]} ∪ visited_urls c) (set_queue q c)) u pc
    else Console.Raised (set_queue q c, pc).
Proof.
  intros Hq Hv. unfold Console.loop_body. rewrite Hq. simpl.
  rewrite bool_decide_eq_false_2 by exact Hv.
  destruct (stdout (Console.Crawling u (pc + 1) (max_pages c))); reflexivity.
Qed.

(** An iteration that returns has done what [loop_body] does. *)
Lemma console_loop_body_returned (s s' : LoopState) :
  console_loop_body s = Console.Returned s' -> s' = loop_body s.
Proof.
  destruct s as [c pc]. destruct (queue c) as [|u q] eqn:Hq.
  - unfold Console.loop_body. open_loop_body. rewrite Hq.
    intros [= <-]. reflexivity.
  - destruct (decide (u ∈ visited_urls c)) as [Hv | Hv].
    + rewrite (console_loop_body_skip c pc u q Hq Hv).
      rewrite (loop_body_skip _ _ c pc u q Hq Hv). intros [= <-]. reflexivity.
    + rewrite (console_loop_body_fetch c pc u q Hq Hv).
      rewrite (loop_body_fetch _ _ c pc u q Hq Hv).
      destruct (stdout (Console.Crawling u (pc + 1) (max_pages c)));
        [|discriminate].
      apply console_try_body_returned.
Qed.


(** Whatever is printed, an iteration only lets the crawler grow. *)
Lemma console_loop_body_grows (s : LoopState) :
  grows (fst s) (fst (Console.state (console_loop_body s))).
Proof.
  destruct s as [c pc]. simpl fst at 1.
  assert (Hpop : forall q, grows c (set_queue q c)).
  { intros q. split; [repeat split|]. split; [reflexivity|].
    split; [exists []; rewrite List.app_nil_r; reflexivity|].
    exists []. rewrite List.app_nil_r. split; [reflexivity|].
    split; [constructor | intros u' []]. }
  destruct (queue c) as [|u q] eqn:Hq.
  - unfold Console.loop_body. rewrite Hq. apply grows_refl.
  - destruct (decide (u ∈ visited_urls c)) as [Hv | Hv].
    + rewrite (console_loop_body_skip c pc u q Hq Hv). apply Hpop.
    + rewrite (console_loop_body_fetch c pc u q Hq Hv).
      destruct (stdout (Console.Crawling u (pc + 1) (max_pages c)));
        [|apply Hpop].
      rewrite console_try_body_state.
      rewrite <- (loop_body_fetch _ _ c pc u q Hq Hv).
      apply (loop_body_grows scrape_static scrape_dynamic (c, pc)).
Qed.

Lemma console_crawl_loop_done (fuel : nat) (s : LoopState) :
  loop_guard s = false -> console_crawl_loop fuel s = Some (Console.Returned s).
Proof. intros Hg. destruct fuel; simpl; rewrite Hg; reflexivity. Qed.

Lemma console_crawl_loop_step (fuel : nat) (s : LoopState) :
  loop_guard s = true ->
  console_crawl_loop (S fuel) s
  = match console_loop_body s with
    | Console.Returned s' => console_crawl_loop fuel s'
    | Console.Raised s' => Some (Console.Raised s')
    end.
Proof. intros Hg. simpl. rewrite Hg. reflexivity. Qed.

Lemma console_crawl_loop_grows (fuel : nat) (s : LoopState)
    (r : Console.Ran LoopState) :
  console_crawl_loop fuel s = Some r -> grows (fst s) (fst (Console.state r)).
Proof.
  revert s. induction fuel as [|fuel IH]; intros s; simpl;
    destruct (loop_guard s); try discriminate.
  - intros [= <-]. apply grows_refl.
  - pose proof (console_loop_body_grows s) as Hstep.
    destruct (console_loop_body s) as [s1 | s1]; simpl in Hstep.
    + intros Hrun.
      exact (grows_trans scrape_static scrape_dynamic _ _ _ Hstep
               (IH _ Hrun)).
    + intros [= <-]. exact Hstep.
  - intros [= <-]. apply grows_refl.
Qed.

(** A loop that returns has run as [crawl_loop] does. *)
Lemma console_crawl_loop_returned (fuel : nat) (s s' : LoopState) :
  console_crawl_loop fuel s = Some (Console.Returned s') ->
  crawl_loop fuel s = Some s'.
Proof.
  revert s. induction fuel as [|fuel IH]; intros s; simpl;
    destruct (loop_guard s); try discriminate.
  - intros [= <-]. reflexivity.
  - destruct (console_loop_body s) as [s1 | s1] eqn:E; [|discriminate].
    apply console_loop_body_returned in E. subst s1. apply IH.
  - intros [= <-]. reflexivity.
Qed.


(** Whenever [crawl] with its [print] calls returns, it returns the
    crawler that [crawl] computes: what is proved of the latter holds of
    every run that returns. *)
Lemma console_crawl_returned (fuel : nat) (c c' : Crawler) :
  console_crawl fuel c = Some (Console.Returned c') -> crawl fuel c = Some c'.
Proof.
  unfold Console.crawl. open_crawl.
  destruct (console_crawl_loop fuel (c, 0)) as [[s | s]|] eqn:E;
    [|discriminate|discriminate].
  apply console_crawl_loop_returned in E. rewrite E. simpl.
  destruct (stdout _); [|discriminate]. intros [= <-]. reflexivity.
Qed.


(** With a limit that is not positive the loop is not entered. *)
Lemma console_crawl_no_budget (fuel : nat) (c : Crawler) :
  max_pages c <= 0 -> visited_urls c = ∅ ->
  console_crawl fuel c
  = Some (if stdout (Console.Complete 0) then Console.Returned c
          else Console.Raised c).
Proof.
  intros Hlim Hv. unfold Console.crawl.
  rewrite console_crawl_loop_done.
  2:{ unfold loop_guard. simpl. destruct (queue c); [reflexivity|].
      apply Z.ltb_ge. exact Hlim. }
  simpl. rewrite Hv, size_empty. change (Z.of_nat 0) with 0.
  destruct (stdout (Console.Complete 0)); reflexivity.
Qed.

(** A seed that cannot be fetched: the loop is over after one
    iteration. *)
Lemma console_crawl_seed_fails (fuel : nat) (c : Crawler) (seed : string) :
  queue c = [seed] -> visited_urls c = ∅ -> 0 < max_pages c ->
  scrape (fetch_kind seed) seed = None ->
  let c' :=
    set_fetch_log (fetch_log c ++ [(fetch_kind seed, seed)])
      (set_visited_urls ({[seed]} ∪ visited_urls c) (set_queue [] c)) in
  console_crawl (S fuel) c
  = Some (if stdout (Console.Crawling seed 1 (max_pages c))
          then if stdout (Console.ErrorCrawling seed)
               then if stdout (Console.Complete 1) then Console.Returned c'
                    else Console.Raised c'
               else Console.Raised c'
          else Console.Raised (set_queue [] c)).
Proof.
  intros Hq Hv Hlim Hfail c'. unfold Console.crawl.
  rewrite console_crawl_loop_step
    by (unfold loop_guard; simpl; rewrite Hq; apply Z.ltb_lt; exact Hlim).
  rewrite (console_loop_body_fetch c 0 seed [] Hq)
    by (rewrite Hv; apply not_elem_of_empty).
  change (0 + 1) with 1.
  destruct (stdout (Console.Crawling seed 1 (max_pages c))); [|reflexivity].
  rewrite (console_try_body_failed _ seed 0 Hfail). unfold Console.handler.
  destruct (stdout (Console.ErrorCrawling seed)); [|reflexivity].
  rewrite console_crawl_loop_done by reflexivity.
  simpl. rewrite Hv, union_empty_r_L, size_singleton.
  change (Z.of_nat 1) with 1.
  destruct (stdout (Console.Complete 1)); subst c'; simpl;
    rewrite Hv, union_empty_r_L; reflexivity.
Qed.

(** C3, as the code has it.  When the scraper raises on a dequeued
    address, what the iteration does depends on its two lines.  If the
    progress line cannot be printed, the exception of [print] leaves
    [crawl] before the address is marked or fetched.  Otherwise the
    address is marked, the fetch fails, and the [except] clause prints
    the error line: if that succeeds the iteration returns with [results]
    and the counter as they were and the rest of the queue, and the loop
    goes on; if it raises, that exception leaves [crawl], with the same
    state.  In no case is a record for the address added, then or
    later. *)
Theorem fetch_failure_skipped (c : Crawler) (pc : Z) (u : string)
    (q : list string) :
  queue c = u :: q -> u ∉ visited_urls c ->
  scrape (fetch_kind u) u = None ->
  let popped := set_queue q c in
  let c' :=
    set_fetch_log (fetch_log c ++ [(fetch_kind u, u)])
      (set_visited_urls ({[u]} ∪ visited_urls c) popped) in
  let progress := stdout (Console.Crawling u (pc + 1) (max_pages c)) in
  let report := stdout (Console.ErrorCrawling u) in
  console_loop_body (c, pc)
  = (if progress
     then if report then Console.Returned (c', pc) else Console.Raised (c', pc)
     else Console.Raised (popped, pc))
  /\ results c' = results c
  /\ queue c' = q
  /\ u ∈ visited_urls c'
  /\ visited_urls c ⊆ visited_urls c'
  /\ (pc < max_pages c ->
      forall fuel,
        console_crawl_loop (S fuel) (c, pc)
        = if progress && report then console_crawl_loop fuel (c', pc)
          else Some (Console.Raised (if progress then c' else popped, pc)))
  /\ (forall fuel r,
        console_crawl_loop fuel (c', pc) = Some r ->
        u ∈ visited_urls (fst (Console.state r))
        /\ forall rec, In rec (results (fst (Console.state r))) ->
             url rec = u -> In rec (results c)).
Proof.
  intros Hq Hv Hf popped c' progress report.
  assert (Hbody : console_loop_body (c, pc)
                  = (if progress
                     then if report then Console.Returned (c', pc)
                          else Console.Raised (c', pc)
                     else Console.Raised (popped, pc))).
  { rewrite (console_loop_body_fetch c pc u q Hq Hv). fold progress.
    destruct progress; [|reflexivity].
    rewrite (console_try_body_failed _ u pc Hf). unfold Console.handler.
    fold report. destruct report; reflexivity. }
  assert (Hin : u ∈ visited_urls c').
  { simpl. apply elem_of_union_l, elem_of_singleton. reflexivity. }
  split; [exact Hbody|]. split; [reflexivity|]. split; [reflexivity|].
  split; [exact Hin|]. split; [apply union_subseteq_r|]. split.
  - intros Hpc fuel. rewrite console_crawl_loop_step, Hbody.
    + destruct progress, report; reflexivity.
    + unfold loop_guard. simpl. rewrite Hq. apply Z.ltb_lt. exact Hpc.
  - intros fuel r Hrun. apply console_crawl_loop_grows in Hrun.
    destruct Hrun as (_ & Hsub & _ & new & Hres & _ & Hnew). simpl fst in *.
    split; [apply Hsub, Hin|].
    intros rec Hr Hu. rewrite Hres in Hr. apply in_app_or in Hr.
    destruct Hr as [Hr | Hr]; [exact Hr|].
    exfalso. destruct (Hnew u) as [Hnot _]; [|exact (Hnot Hin)].
    rewrite <- Hu. apply in_map. exact Hr.
Qed.


(** X7.  For a seed that [urlparse] accepts, two crawls end with no data.
    With [max_pages <= 0] the loop is not entered and the scraper is
    never called.  With [max_pages > 0] and a seed that cannot be
    fetched, the scraper is called once, the error is swallowed and the
    loop ends.  In both cases the caller of [/scrape] receives an empty
    list and not an error, unless one of the lines of the crawl could not
    be printed, which is answered with an error. *)
Theorem empty_crawls_succeed (fuel : nat) (seed : string) (limit : Z)
    (p : UrlParse.ParseResult) :
  UrlParse.urlparse seed EmptyString = Some p ->
  (limit <= 0 ->
   console_scrape_website fuel seed limit
   = Some (if stdout (Console.Complete 0) then Success [] else ServerError)
   /\ console_log fuel seed limit = Some [])
  /\ (0 < limit -> scrape (fetch_kind seed) seed = None ->
      console_scrape_website (S fuel) seed limit
      = Some (if stdout (Console.Crawling seed 1 limit)
                 && stdout (Console.ErrorCrawling seed)
                 && stdout (Console.Complete 1)
              then Success [] else ServerError)
      /\ console_log (S fuel) seed limit
         = Some (if stdout (Console.Crawling seed 1 limit)
                 then [(fetch_kind seed, seed)] else [])).
Proof.
  intros Hp.
  set (c0 := mkCrawler seed (UrlParse.p_netloc p) limit false ∅
               [seed] [] RobotParser.new []).
  assert (Hinit : init robots seed limit false = Some c0)
    by (unfold init; rewrite Hp; reflexivity).
  unfold Console.scrape_website, Console.scrape_website_log. rewrite Hinit.
  split.
  - intros Hlim. rewrite (console_crawl_no_budget fuel c0 Hlim eq_refl).
    destruct (stdout (Console.Complete 0)); split; reflexivity.
  - intros Hlim Hfail.
    rewrite (console_crawl_seed_fails fuel c0 seed eq_refl eq_refl Hlim Hfail).
    simpl max_pages.
    destruct (stdout (Console.Crawling seed 1 limit)),
             (stdout (Console.ErrorCrawling seed)),
             (stdout (Console.Complete 1)); split; reflexivity.
Qed.

End ConsoleFacts.

(** ** The properties of the crawl and of the scraper at concrete sites *)

Module Instances.
Import PyStr PyStrFacts Scenario.

(** Every link of [two_pages] is an address that [urlparse] accepts. *)
Lemma two_pages_links_parse :
  @links_never_raise checks (site two_pages) (site two_pages)
    (fresh "http://x.com" 1).
Proof.
  assert (Hpage : forall u r, site two_pages u = Some r ->
            links_of r = ["http://x.com/b"] \/ links_of r = []).
  { intros u r. unfold site, two_pages.
    destruct (String.eqb "http://x.com" u); [intros [= <-]; left; reflexivity|].
    destruct (String.eqb "http://x.com/b" u); [intros [= <-]; right; reflexivity|].
    discriminate. }
  intros k u r c (_ & _ & _ & Hrob & _) Hs. simpl in Hrob.
  assert (Hr : site two_pages u = Some r) by (destruct k; exact Hs).
  destruct (Hpage u r Hr) as [-> | ->]; [|reflexivity].
  cbn [process_links].
  rewrite (@normalize_url_http checks "http://x.com/b" u eq_refl).
  change (canonical "http://x.com/b") with "http://x.com/b".
  unfold should_crawl, is_same_domain.
  change (startswith_any "http://x.com/b" http_prefixes) with true.
  cbv beta iota. simpl negb. cbv iota.
  assert (Hp : @UrlParse.urlparse checks "http://x.com/b" EmptyString
               = Some (UrlParse.mkParse "http" "x.com" "/b" EmptyString
                         EmptyString EmptyString))
    by (vm_compute; reflexivity).
  rewrite Hp.
  destruct (bool_decide ("http://x.com/b" ∈ visited_urls c)); [reflexivity|].
  destruct (String.eqb _ (base_domain c)); [|reflexivity].
  unfold is_allowed. rewrite Hrob. simpl negb. cbv iota.
  destruct (negb (has_skip_extension "http://x.com/b")); reflexivity.
Qed.

Lemma crawl_stays_in_scope_witness :
  @init checks RobotParser.ReadRaised "http://x.com" 5 false
  = Some (fresh "http://x.com" 5)
  /\ exists c',
       @crawl checks (site two_pages) (site two_pages) 5
         (fresh "http://x.com" 5) = Some c'
       /\ (forall r, In r (results c') ->
             exists k, In (k, url r) (fetch_log c')).
Proof.
  split; [reflexivity|].
  assert (Hrun :
    option_map (fun c => map url (results c))
      (@crawl checks (site two_pages) (site two_pages) 5
         (fresh "http://x.com" 5))
    = Some ["http://x.com"; "http://x.com/b"])
    by (vm_compute; reflexivity).
  destruct (@crawl checks (site two_pages) (site two_pages) 5
              (fresh "http://x.com" 5)) as [c'|] eqn:E; [|discriminate Hrun].
  exists c'. split; [reflexivity|].
  exact (proj2 (@crawl_stays_in_scope checks (site two_pages) (site two_pages)
                  RobotParser.ReadRaised "http://x.com" 5 false 5
                  (fresh "http://x.com" 5) c' eq_refl E)).
Defined.

Lemma fragment_only_in_seed_witness :
  @init checks RobotParser.ReadRaised "http://x.com" 5 false
  = Some (fresh "http://x.com" 5)
  /\ exists c',
       @crawl checks (site Served.with_dashboard) (site Served.with_dashboard)
         5 (fresh "http://x.com" 5) = Some c'
       /\ fetch_log c'
          = [(Static, "http://x.com"); (Dynamic, "http://x.com/dashboard")]
       /\ has_char "#" "http://x.com/dashboard" = false.
Proof.
  split; [reflexivity|].
  assert (Hrun :
    option_map fetch_log
      (@crawl checks (site Served.with_dashboard) (site Served.with_dashboard)
         5 (fresh "http://x.com" 5))
    = Some [(Static, "http://x.com"); (Dynamic, "http://x.com/dashboard")])
    by (vm_compute; reflexivity).
  destruct (@crawl checks (site Served.with_dashboard)
              (site Served.with_dashboard) 5 (fresh "http://x.com" 5))
    as [c'|] eqn:E; [|discriminate Hrun].
  simpl in Hrun. injection Hrun as Hlog.
  exists c'. split; [reflexivity|]. split; [exact Hlog|].
  assert (Hin : In (Dynamic, "http://x.com/dashboard") (fetch_log c'))
    by (rewrite Hlog; right; left; reflexivity).
  assert (Hne : "http://x.com/dashboard" <> "http://x.com") by discriminate.
  exact (proj1 (@fragment_only_in_seed checks (site Served.with_dashboard)
                  (site Served.with_dashboard) RobotParser.ReadRaised
                  "http://x.com" 5 false 5 (fresh "http://x.com" 5) c'
                  eq_refl E Dynamic "http://x.com/dashboard" Hin Hne)).
Defined.

Lemma each_url_fetched_once_witness :
  @init checks RobotParser.ReadRaised "http://x.com" 5 false
  = Some (fresh "http://x.com" 5)
  /\ exists c',
       @crawl checks (site twice_linked) (site twice_linked) 5
         (fresh "http://x.com" 5) = Some c'
       /\ List.NoDup (map snd (fetch_log c'))
       /\ (length (results c') <= length (fetch_log c'))%nat.
Proof.
  split; [reflexivity|].
  assert (Hrun :
    option_map (fun c => map url (results c))
      (@crawl checks (site twice_linked) (site twice_linked) 5
         (fresh "http://x.com" 5))
    = Some ["http://x.com"; "http://x.com/b"])
    by (vm_compute; reflexivity).
  destruct (@crawl checks (site twice_linked) (site twice_linked) 5
              (fresh "http://x.com" 5)) as [c'|] eqn:E; [|discriminate Hrun].
  exists c'. split; [reflexivity|].
  pose proof (@each_url_fetched_once checks (site twice_linked)
                (site twice_linked) RobotParser.ReadRaised "http://x.com"
                5 false 5 (fresh "http://x.com" 5) c' eq_refl E)
    as (Hnd & _ & _ & Hlen).
  split; [exact Hnd | exact Hlen].
Defined.

Lemma records_are_scraper_results_witness :
  @init checks RobotParser.ReadRaised "http://x.com" 5 false
  = Some (fresh "http://x.com" 5)
  /\ exists c',
       @crawl checks (site two_pages) (site two_pages) 5
         (fresh "http://x.com" 5) = Some c'
       /\ forall r, In r (results c') ->
            scrape (site two_pages) (site two_pages)
              (fetch_kind (url r)) (url r) = Some (content r).
Proof.
  split; [reflexivity|].
  assert (Hrun :
    option_map (fun c => map url (results c))
      (@crawl checks (site two_pages) (site two_pages) 5
         (fresh "http://x.com" 5))
    = Some ["http://x.com"; "http://x.com/b"])
    by (vm_compute; reflexivity).
  destruct (@crawl checks (site two_pages) (site two_pages) 5
              (fresh "http://x.com" 5)) as [c'|] eqn:E; [|discriminate Hrun].
  exists c'. split; [reflexivity|].
  exact (proj1 (@records_are_scraper_results checks (site two_pages)
                  (site two_pages) RobotParser.ReadRaised "http://x.com"
                  5 false 5 (fresh "http://x.com" 5) c' eq_refl E)).
Defined.

Lemma process_links_appends_witness :
  (snd (@process_links checks (fresh "http://x.com" 5) "http://x.com"
          ["http://x.com/b"; "http://x.com/b"]) = true
   /\ queue (fst (@process_links checks (fresh "http://x.com" 5)
                    "http://x.com" ["http://x.com/b"; "http://x.com/b"]))
      = queue (fresh "http://x.com" 5)
        ++ flat_map (@accepted_link checks (fresh "http://x.com" 5)
                       "http://x.com")
             ["http://x.com/b"; "http://x.com/b"])
  /\ (snd (@process_links checks (fresh "http://x.com" 5) "http://x.com"
             ["http://x.com/b"; "http://["; "http://x.com/c"]) = false
      /\ exists before l after,
           ["http://x.com/b"; "http://["; "http://x.com/c"]
           = before ++ l :: after
           /\ queue (fst (@process_links checks (fresh "http://x.com" 5)
                            "http://x.com"
                            ["http://x.com/b"; "http://["; "http://x.com/c"]))
              = queue (fresh "http://x.com" 5)
                ++ flat_map (@accepted_link checks (fresh "http://x.com" 5)
                               "http://x.com") before
           /\ (@normalize_url checks l "http://x.com" = None
               \/ exists n, @normalize_url checks l "http://x.com" = Some n
                            /\ @should_crawl checks
                                 (fresh "http://x.com" 5) n = None)).
Proof.
  assert (Hgood :
    snd (@process_links checks (fresh "http://x.com" 5) "http://x.com"
           ["http://x.com/b"; "http://x.com/b"]) = true)
    by (vm_compute; reflexivity).
  assert (Hbad :
    snd (@process_links checks (fresh "http://x.com" 5) "http://x.com"
           ["http://x.com/b"; "http://["; "http://x.com/c"]) = false)
    by (vm_compute; reflexivity).
  split; (split; [assumption|]).
  - exact (proj1 (@process_links_appends checks (fresh "http://x.com" 5)
                    "http://x.com" ["http://x.com/b"; "http://x.com/b"])
             Hgood).
  - exact (proj2 (@process_links_appends checks (fresh "http://x.com" 5)
                    "http://x.com"
                    ["http://x.com/b"; "http://["; "http://x.com/c"])
             Hbad).
Defined.


Lemma crawl_ends_within_budget_witness :
  @init checks RobotParser.ReadRaised "http://x.com" 1 false
  = Some (fresh "http://x.com" 1)
  /\ exists fuel c',
       @crawl checks (site two_pages) (site two_pages) fuel
         (fresh "http://x.com" 1) = Some c'
       /\ Z.of_nat (length (results c')) <= 1
       /\ (Z.of_nat (length (results c')) < 1 -> queue c' = []).
Proof.
  split; [reflexivity|].
  exact (@crawl_ends_within_budget checks (site two_pages) (site two_pages)
           RobotParser.ReadRaised "http://x.com" 1 false
           (fresh "http://x.com" 1) two_pages_links_parse Z.le_0_1 eq_refl).
Defined.

Lemma normalize_url_fixed_points_witness :
  startswith_any "http://x.com/a" http_prefixes = true
  /\ @normalize_url checks "http://x.com/a" "http://x.com"
     = Some "http://x.com/a"
  /\ @normalize_url checks ("http://x.com/a" +:+ "//") "http://x.com"
     = Some ("http://x.com/a" +:+ "/").
Proof.
  split; [reflexivity|]. split.
  - exact (proj2 (proj1 (@normalize_url_fixed_points checks "http://x.com/a"
                           "http://x.com" eq_refl))
             (conj eq_refl eq_refl)).
  - exact (proj1 (proj2 (@normalize_url_fixed_points checks "http://x.com/a"
                           "http://x.com" eq_refl)
                    eq_refl)).
Defined.

Lemma root_relative_links_stay_under_page_witness :
  startswith "/about" "/" = true
  /\ Scraper.absolutize "http://x.com/docs/" "/about"
     = "http://x.com/docs/about"
  /\ @normalize_url checks (Scraper.absolutize "http://x.com/docs/" "/about")
       "http://x.com/docs/"
     = Some (drop_slash "http://x.com/docs/" +:+ canonical "/about")
  /\ @normalize_url checks (Scraper.absolutize "http://x.com/docs/" "/")
       "http://x.com/docs/"
     = Some (drop_slash "http://x.com/docs/").
Proof.
  split; [reflexivity|]. split.
  - exact (proj1 (proj2 (@root_relative_links_stay_under_page checks
                           "http://x.com/docs/" "/about" "http://x.com/docs/")
                    eq_refl)).
  - exact (proj2 (proj2 (@root_relative_links_stay_under_page checks
                           "http://x.com/docs/" "/about" "http://x.com/docs/")
                    eq_refl)
             eq_refl eq_refl).
Defined.

Lemma records_by_scraper_witness :
  @init checks RobotParser.ReadRaised "http://x.com" 5 false
  = Some (fresh "http://x.com" 5)
  /\ exists c',
       @crawl checks (Scraper.scrape_static Served.get)
         (Scraper.scrape_dynamic Served.render) 5 (fresh "http://x.com" 5)
       = Some c'
       /\ map (fun r => (url r, text (content r))) (results c')
          = [("http://x.com", "Hello world")]
       /\ fetch_log c' = [(Static, "http://x.com"); (Static, "http://x.com/b")]
       /\ forall r, In r (results c') ->
            if is_likely_dynamic (url r)
            then exists page,
                   Served.render (url r) = Some page
                   /\ content r
                      = mkScrape
                          (Scraper.clean_text (Scraper.rendered_text page))
                          (Some (mkSD (Some (Scraper.extract_links
                                               (Scraper.rendered_anchors page)
                                               (url r)))))
            else exists response,
                   Served.get (url r) = Some response
                   /\ ~ (400 <= Scraper.status_code response < 600)
                   /\ content r
                      = mkScrape
                          (Scraper.clean_text (Scraper.page_text response))
                          (Some (mkSD (Some (Scraper.extract_links
                                               (Scraper.anchors response)
                                               (url r))))).
Proof.
  split; [reflexivity|].
  assert (Hrun :
    option_map (fun c => (map (fun r => (url r, text (content r))) (results c),
                          fetch_log c))
      (@crawl checks (Scraper.scrape_static Served.get)
         (Scraper.scrape_dynamic Served.render) 5 (fresh "http://x.com" 5))
    = Some ([("http://x.com", "Hello world")],
            [(Static, "http://x.com"); (Static, "http://x.com/b")]))
    by (vm_compute; reflexivity).
  destruct (@crawl checks (Scraper.scrape_static Served.get)
              (Scraper.scrape_dynamic Served.render) 5
              (fresh "http://x.com" 5)) as [c'|] eqn:E; [|discriminate Hrun].
  simpl in Hrun. injection Hrun as Hres Hlog.
  exists c'. split; [reflexivity|]. split; [exact Hres|]. split; [exact Hlog|].
  exact (@records_by_scraper checks Served.get Served.render
           RobotParser.ReadRaised "http://x.com" 5 false 5
           (fresh "http://x.com" 5) c' eq_refl E).
Defined.

End Instances.

(** ** Resolution of relative links *)

Section ResolutionFacts.
Import PyStr PyStrFacts.

Context `{NetlocChecks}.
























End ResolutionFacts.

(** ** The amended claims at concrete inputs *)

Module Cases.
Import PyStr PyStrFacts Scenario.

(** C3 fails when the error line cannot be printed: the fetch of the
    seed fails, the [except] clause raises in turn, and the caller gets
    an error.  It fails as well when the progress line cannot be printed:
    on a stream that encodes ASCII only, an address with an accent makes
    [crawl] raise before the fetch. *)
Lemma fetch_error_escapes :
  scrape (site offline) (site offline) (fetch_kind "http://x.com")
    "http://x.com" = None
  /\ option_map
       (fun r => match r with
                 | Console.Raised c => Some (fetch_log c, results c)
                 | Console.Returned _ => None
                 end)
       (@Console.crawl checks (site offline) (site offline)
          Console.no_error_text 5 (fresh "http://x.com" 5))
     = Some (Some ([(Static, "http://x.com")], []))
  /\ @Console.scrape_website checks (site offline) (site offline)
       RobotParser.ReadRaised Console.no_error_text 5 "http://x.com" 5
     = Some ServerError
  /\ @Console.scrape_website checks (site offline) (site offline)
       RobotParser.ReadRaised Console.ascii_only 5 Console.accented 5
     = Some ServerError
  /\ @Console.scrape_website_log checks (site offline) (site offline)
       RobotParser.ReadRaised Console.ascii_only 5 Console.accented 5
     = Some [].
Proof. repeat split; vm_compute; reflexivity. Qed.

Lemma fetch_failure_skipped_witness :
  queue (fresh "http://x.com" 5) = ["http://x.com"]
  /\ ("http://x.com" ∉ visited_urls (fresh "http://x.com" 5))
  /\ scrape (site offline) (site offline)
       (fetch_kind "http://x.com") "http://x.com" = None
  /\ @Console.loop_body checks (site offline) (site offline)
       Console.accepts_all (fresh "http://x.com" 5, 0)
     = Console.Returned
         (set_fetch_log [(Static, "http://x.com")]
            (set_visited_urls ({[ "http://x.com" ]} ∪ ∅)
               (set_queue [] (fresh "http://x.com" 5))), 0)
  /\ @Console.loop_body checks (site offline) (site offline)
       Console.no_error_text (fresh "http://x.com" 5, 0)
     = Console.Raised
         (set_fetch_log [(Static, "http://x.com")]
            (set_visited_urls ({[ "http://x.com" ]} ∪ ∅)
               (set_queue [] (fresh "http://x.com" 5))), 0).
Proof.
  split; [reflexivity|]. split; [apply not_elem_of_empty|].
  split; [reflexivity|]. split.
  - exact (proj1 (@fetch_failure_skipped checks (site offline) (site offline)
                    Console.accepts_all (fresh "http://x.com" 5) 0
                    "http://x.com" [] eq_refl (not_elem_of_empty _) eq_refl)).
  - exact (proj1 (@fetch_failure_skipped checks (site offline) (site offline)
                    Console.no_error_text (fresh "http://x.com" 5) 0
                    "http://x.com" [] eq_refl (not_elem_of_empty _) eq_refl)).
Defined.



(** C5 fails on an address that [urlparse] rejects: it ends in [.pdf],
    yet [should_crawl] does not return [False], it raises.  It raises as
    well, with [respect_robots] set and a robots file read, on an
    address of the domain on which [can_fetch] raises. *)
Lemma pdf_link_raises :
  (exists pre, lower "http://]/a.pdf" = pre +:+ ".pdf")
  /\ startswith_any "http://]/a.pdf" http_prefixes = true
  /\ @UrlParse.urlparse checks "http://]/a.pdf" EmptyString = None
  /\ @should_crawl checks (fresh "http://x.com" 5) "http://]/a.pdf" = None
  /\ match @init checks (RobotParser.ReadParsed quoted_bracket_rules)
             "http://x.com%5D" 5 true with
     | Some c =>
         @is_same_domain checks c "http://x.com%5D/a" = Some true
         /\ is_allowed c "http://x.com%5D/a" = None
         /\ @should_crawl checks c "http://x.com%5D/a" = None
     | None => False
     end.
Proof.
  split; [exists "http://]/a"; reflexivity|].
  repeat split; vm_compute; reflexivity.
Qed.

Lemma should_crawl_spec_witness :
  (exists pre, lower "http://x.com/Report.PDF" = pre +:+ ".pdf")
  /\ @should_crawl checks (fresh "http://x.com" 5) "http://x.com/Report.PDF"
     <> Some true.
Proof.
  assert (Hpdf : exists pre, lower "http://x.com/Report.PDF" = pre +:+ ".pdf")
    by (exists "http://x.com/report"; reflexivity).
  split; [exact Hpdf|].
  exact (proj2 (proj2 (proj2 (proj2
           (@should_crawl_spec checks (fresh "http://x.com" 5)
              "http://x.com/Report.PDF")))) Hpdf).
Defined.



Lemma empty_crawls_succeed_witness :
  @UrlParse.urlparse checks "http://x.com" EmptyString
  = Some (UrlParse.mkParse "http" "x.com" EmptyString EmptyString
            EmptyString EmptyString)
  /\ @Console.scrape_website checks (site two_pages) (site two_pages)
       RobotParser.ReadRaised Console.accepts_all 0 "http://x.com" 0
     = Some (Success [])
  /\ @Console.scrape_website checks (site offline) (site offline)
       RobotParser.ReadRaised Console.accepts_all 1 "http://x.com" 5
     = Some (Success [])
  /\ @Console.scrape_website checks (site offline) (site offline)
       RobotParser.ReadRaised Console.no_error_text 1 "http://x.com" 5
     = Some ServerError.
Proof.
  assert (Hp : @UrlParse.urlparse checks "http://x.com" EmptyString
               = Some (UrlParse.mkParse "http" "x.com" EmptyString EmptyString
                         EmptyString EmptyString))
    by (vm_compute; reflexivity).
  split; [exact Hp|]. split; [|split].
  - exact (proj1 (proj1 (@empty_crawls_succeed checks (site two_pages)
                           (site two_pages) RobotParser.ReadRaised
                           Console.accepts_all 0 "http://x.com" 0 _ Hp)
                    (Z.le_refl 0))).
  - exact (proj1 (proj2 (@empty_crawls_succeed checks (site offline)
                           (site offline) RobotParser.ReadRaised
                           Console.accepts_all 0 "http://x.com" 5 _ Hp)
                    eq_refl eq_refl)).
  - exact (proj1 (proj2 (@empty_crawls_succeed checks (site offline)
                           (site offline) RobotParser.ReadRaised
                           Console.no_error_text 0 "http://x.com" 5 _ Hp)
                    eq_refl eq_refl)).
Defined.

End Cases.
